(** * ggy-portfolio-nextjs: article pages, header navigation and clock

    A shallow embedding of the portfolio site's article list page
    ([src/app/articles/page.tsx]), article detail page
    ([src/app/articles/[id]/page.tsx]), the article metadata of the
    content module ([src/app/resources/content.js]) and the header with its
    clock ([Header], [TimeDisplay]).

    React elements are modelled as a tree of components with props, the
    asynchronous detail page as a computation in a small exception-and-log
    monad over a file system, and the clock's effect as state passing over
    a timer table. *)

From Stdlib Require Import ZArith String Ascii List.
From stdpp Require Import base option list gmap strings pretty.

Set Warnings "-register-all".

Local Open Scope string_scope.
Local Open Scope list_scope.
Local Open Scope Z_scope.

(** ** JavaScript values used by the pages *)

(** [Number.prototype.toString] on the integers the content module uses as
    ids (whole numbers of magnitude below 1e21, which JavaScript prints
    without an exponent): the canonical decimal rendering, ["0"], ["7"],
    ["-3"]. *)
Definition number_toString (n : Z) : string := pretty n.

(** String concatenation with a number operand, ["/articles/" + article.id]. *)
Definition string_plus_number (s : string) (n : Z) : string :=
  s +:+ number_toString n.

(** [a === b] on strings. *)
Definition strict_eq (a b : string) : bool := String.eqb a b.

(** [s.startsWith(p)]. *)
Definition startsWith (s p : string) : bool := String.prefix p s.

(** ** The content module: article metadata *)

Record Article := mkArticle {
  id : Z;
  title : string;
  description : string;
  date : string;
  image : string;
  link : string;
  tags : list string;
}.

(** The [articles] object of the content module.  [data] is optional because
    the list page guards it with [articles.data || []]. *)
Record ArticlesContent := mkArticlesContent {
  articles_label : string;
  articles_title : string;
  articles_description : string;
  articles_data : option (list Article);
}.

Module Content.

Definition article0 : Article :=
  mkArticle 0 "Building Scalable React Applications"
    "Learn how to architect large-scale React applications with best practices for state management, component organization, and performance optimization. This article covers advanced patterns and techniques for building maintainable React codebases."
    "May 15, 2024" "/images/articles/img1.jpg" "/articles/0"
    ["React"; "Architecture"; "Performance"].

Definition article1 : Article :=
  mkArticle 1 "System Design: Designing the StarWidget"
    "A comprehensive guide to migrating your Vue 2 application to Next.js, including strategies for handling state, routing, and server-side rendering. Learn how to plan and execute a phased migration while maintaining application functionality."
    "April 29, 2025" "/images/articles/img2.jpg" "/articles/1"
    ["System Design"].

Definition article2 : Article :=
  mkArticle 2 "Behavioral Interview Questions"
    "A collection of behavioral interview questions that are commonly asked in technical interviews. Learn how to prepare for these questions and answer them confidently."
    "May 1, 2025" "/images/articles/img3.jpg" "/articles/2"
    ["Behavioral Interview"; "Frontend Interview"].

Definition data : list Article := [article0; article1; article2].

Definition articles : ArticlesContent :=
  mkArticlesContent "Articles" "Tech Articles"
    "A collection of technical articles, tutorials and insights about web development, architecture design and software engineering"
    (Some data).

Definition about_label : string := "About".

End Content.

(** ** React elements *)

Inductive remark_plugin := remarkGfm.

Inductive prop_value :=
| PStr (s : string)
| PNum (n : Z)
| PBool (b : bool)
| PStyle (key : string)                 (* [styles.key] of a CSS module *)
| PPlugins (ps : list remark_plugin).

(** A JSX tree: string children, the [false] child left by [cond && <X/>],
    and elements with a component name, props and children. *)
Inductive node :=
| Txt (s : string)
| Falsy
| Elem (component : string) (props : list (string * prop_value))
       (children : list node).

(** [cond && element] in JSX. *)
Definition jsx_and (cond : bool) (n : node) : node :=
  if cond then n else Falsy.

(** Value of a prop of an element, if it has one. *)
Definition get_prop (name : string) (n : node) : option prop_value :=
  match n with
  | Elem _ props _ => snd <$> List.find (fun kv => String.eqb (fst kv) name) props
  | _ => None
  end.

(** All string children of a tree, in document order. *)
Fixpoint texts (n : node) : list string :=
  match n with
  | Txt s => [s]
  | Falsy => []
  | Elem _ _ cs => flat_map texts cs
  end.

(** All elements of a given component in a tree, in document order; the
    search does not descend into a matching element. *)
Fixpoint elements_of (name : string) (n : node) : list node :=
  match n with
  | Txt _ | Falsy => []
  | Elem c _ cs =>
      if String.eqb c name then [n] else flat_map (elements_of name) cs
  end.

(** All strings a tree carries: its string children and its string-valued
    props, in document order. *)
Fixpoint strings_of (n : node) : list string :=
  match n with
  | Txt s => [s]
  | Falsy => []
  | Elem _ props cs =>
      omap (fun kv => match snd kv with PStr s => Some s | _ => None end) props
      ++ flat_map strings_of cs
  end.

Definition plugins_of (n : node) : list remark_plugin :=
  match get_prop "remarkPlugins" n with
  | Some (PPlugins ps) => ps
  | _ => []
  end.

(** The HTML fragments a tree embeds: every [ReactMarkdown] element hands
    its plugins and its text to the markdown renderer [md] (react-markdown
    with remark plugins, an external library). *)
Definition markdown_html (md : list remark_plugin -> string -> string)
    (n : node) : list string :=
  List.map
    (fun e => md (plugins_of e) (String.concat "" (texts e)))
    (elements_of "ReactMarkdown" n).


(** ** File system and the server-side computation monad *)

(** A file is either readable text or present but unreadable; a path
    without an entry does not exist. *)
Inductive file :=
| Readable (text : string)
| Unreadable.

Inductive fs_error := ENOENT | EACCES.

(** What a JavaScript computation can throw here: the error of
    [notFound()] of next/navigation, or a rejected [fs.readFile]. *)
Inductive exn :=
| NextNotFound
| FsError (e : fs_error).

(** The world a request runs in: the files on disk and the log of the
    paths handed to [fs.readFile], oldest first. *)
Record world := mkWorld {
  files : gmap string file;
  reads : list string;
}.

Inductive outcome (A : Type) :=
| Returned (a : A)
| Threw (e : exn).
Arguments Returned {A} a.
Arguments Threw {A} e.

Definition M (A : Type) : Type := world -> outcome A * world.

#[global] Instance M_ret : MRet M := fun A a w => (Returned a, w).

#[global] Instance M_bind : MBind M := fun A B k m w =>
  match m w with
  | (Returned a, w') => k a w'
  | (Threw e, w') => (Threw e, w')
  end.

Definition throw {A} (e : exn) : M A := fun w => (Threw e, w).

(** [try { m } catch (e) { h e }]: the handler catches whatever is thrown. *)
Definition try_catch {A} (m : M A) (h : exn -> M A) : M A :=
  fun w =>
    match m w with
    | (Returned a, w') => (Returned a, w')
    | (Threw e, w') => h e w'
    end.

(** [notFound()] of next/navigation never returns: it throws. *)
Definition notFound {A} : M A := throw NextNotFound.

(** [await fs.readFile(path, "utf-8")]: logs the access, then yields the
    text or rejects. *)
Definition readFile (path : string) : M string :=
  fun w =>
    let w' := mkWorld (files w) (reads w ++ [path]) in
    match files w !! path with
    | Some (Readable text) => (Returned text, w')
    | Some Unreadable => (Threw (FsError EACCES), w')
    | None => (Threw (FsError ENOENT), w')
    end.

(** ** Article detail page, [src/app/articles/[id]/page.tsx] *)

Record Params := mkParams { params_id : string }.

Section ArticlePages.

(** The content module the pages import, [process.cwd()] and Node's
    [path.join]. *)
Variable articles : ArticlesContent.
Variable cwd : string.
Variable path_join : string -> string -> string.

(** [articles.data] as the detail page uses it (a list). *)
Definition data_list : list Article := default [] (articles_data articles).

Definition generateStaticParams : list Params :=
  List.map (fun article => mkParams (number_toString (id article))) data_list.

(** [articles.data.find((a) => a.id.toString() === params.id)]. *)
Definition find_article (params : Params) : option Article :=
  List.find (fun a => strict_eq (number_toString (id a)) (params_id params))
    data_list.

(** [generateMetadata]: title and description, or the empty object. *)
Definition generateMetadata (params : Params) : option (string * string) :=
  match find_article params with
  | None => None
  | Some article => Some (title article, description article)
  end.

Definition mdDir : string := path_join cwd "public/articles".

Definition filePath (params : Params) : string :=
  path_join mdDir (params_id params +:+ ".md").

Definition fallback_content : string := "File cannot be used".

(** The JSX the detail page returns. *)
Definition article_view (article : Article) (content : string) : node :=
  Elem "Column" [("gap", PStr "m"); ("padding", PStr "l")]
    [ Elem "div" [("className", PStyle "articleImageContainer")]
        [ Elem "Image"
            [("src", PStr (image article)); ("alt", PStr (title article));
             ("width", PNum 320); ("height", PNum 240);
             ("className", PStyle "articleImage"); ("priority", PBool true)]
            [] ];
      Elem "Text"
        [("variant", PStr "heading-default-xl");
         ("className", PStyle "articleTitle")]
        [Txt (title article)];
      Elem "Text"
        [("variant", PStr "body-default-s");
         ("className", PStr "text-neutral-500")]
        [Txt (date article)];
      Elem "Line" [] [];
      Elem "div" [("className", PStyle "articleContent")]
        [ Elem "ReactMarkdown" [("remarkPlugins", PPlugins [remarkGfm])]
            [Txt content] ] ].

Definition ArticleDetail (params : Params) : M node :=
  match find_article params with
  | None => notFound
  | Some article =>
      content ← try_catch (readFile (filePath params))
                  (fun e => mret fallback_content);
      mret (article_view article content)
  end.

(** ** Article list page, [src/app/articles/page.tsx] *)

(** One entry of the list: a link around a card with the cover image, the
    date, the title, the description and the tags. *)
Definition article_card (index : nat) (article : Article) : node :=
  Elem "Link"
    [("href", PStr (string_plus_number "/articles/" (id article)));
     ("key", PNum (Z.of_nat index))]
    [ Elem "Flex"
        [("className", PStr "border rounded-sm overflow-hidden rounded-lg shadow-sm transition-shadow duration-300 group-hover:shadow-lg")]
        [ Elem "Image"
            [("src", PStr (image article)); ("alt", PStr (title article));
             ("width", PNum 360); ("height", PNum 240);
             ("className", PStr "object-cover transition-transform duration-300 group-hover:scale-105")]
            [];
          Elem "Column" [("gap", PStr "s"); ("padding", PStr "m")]
            [ Elem "Text"
                [("variant", PStr "body-default-s");
                 ("className", PStr "text-neutral-500 dark:text-neutral-400")]
                [Txt (date article)];
              Elem "Text"
                [("variant", PStr "heading-default-s");
                 ("className", PStr "text-neutral-900 dark:text-white line-clamp-2 transition-colors group-hover:text-brand-600")]
                [Txt (title article)];
              Elem "Text"
                [("variant", PStr "body-default-s");
                 ("className", PStr "text-neutral-600 dark:text-neutral-300 line-clamp-3")]
                [Txt (description article)];
              Elem "Flex"
                [("gap", PStr "2"); ("wrap", PBool true);
                 ("marginTop", PStr "s")]
                (imap (fun tagIndex tag =>
                         Elem "Text"
                           [("key", PNum (Z.of_nat tagIndex));
                            ("variant", PStr "body-default-xs");
                            ("className", PStr "bg-neutral-100 text-neutral-800 dark:bg-neutral-800 dark:text-neutral-200 px-2 py-1 rounded")]
                           [Txt tag])
                      (tags article)) ] ] ].

Definition empty_state : node :=
  Elem "Flex"
    [("fillWidth", PBool true); ("horizontal", PStr "center");
     ("vertical", PStr "center"); ("padding", PStr "xl")]
    [ Elem "Column" [("gap", PStr "m"); ("horizontal", PStr "center")]
        [ Elem "Text" [("variant", PStr "heading-default-l")]
            [Txt "Coming Soon"];
          Elem "Text"
            [("variant", PStr "body-default-m");
             ("className", PStr "text-center")]
            [Txt "No articles available at the moment. Check back later for tech articles and tutorials."] ] ].

Definition Articles : node :=
  let articlesData := default [] (articles_data articles) in
  Elem "Column" [("gap", PStr "8")]
    [ if (0 <? length articlesData)%nat
      then Elem "Fragment" [] (imap article_card articlesData)
      else empty_state ].

End ArticlePages.

(** The strings one entry of the list shows, in order. *)
Definition card_texts (article : Article) : list string :=
  [date article; title article; description article] ++ tags article.

(** ** Header navigation, [Header] *)

Section HeaderNav.

(** [routes] of the site configuration, and the labels the header takes
    from the content module. *)
Variable routes : gmap string bool.
Variable about_label : string.
Variable articles : ArticlesContent.

(** Truthiness of [routes[path]]; a missing key reads as [undefined]. *)
Definition route_enabled (path : string) : bool :=
  default false (routes !! path).

Definition ToggleButton (className : option string) (prefixIcon href : string)
    (label : option string) (selected : bool) : node :=
  Elem "ToggleButton"
    (match className with Some c => [("className", PStr c)] | None => [] end
     ++ [("prefixIcon", PStr prefixIcon); ("href", PStr href)]
     ++ match label with Some l => [("label", PStr l)] | None => [] end
     ++ [("selected", PBool selected)])
    [].

Definition gradient_div (direction : string) : node :=
  Elem "div"
    [("className", PStr ("absolute inset-0 bg-gradient-to-" +:+ direction +:+ " from-page-background to-transparent backdrop-blur-sm pointer-events-none"))]
    [].

(** [usePathname] is the value of the hook, [None] for [null]. *)
Definition Header (usePathname : option string) : node :=
  let pathname := default "" usePathname in
  Elem "Fragment" []
    [ Elem "Fade"
        [("hide", PStr "s"); ("fillWidth", PBool true);
         ("position", PStr "fixed"); ("height", PStr "80"); ("zIndex", PNum 9)]
        [gradient_div "b"];
      Elem "Fade"
        [("show", PStr "s"); ("fillWidth", PBool true);
         ("position", PStr "fixed"); ("bottom", PStr "0"); ("to", PStr "top");
         ("height", PStr "80"); ("zIndex", PNum 9)]
        [gradient_div "t"];
      Elem "Flex"
        [("as", PStr "header");
         ("className", PStr "sticky top-0 sm:fixed sm:bottom-6 sm:top-auto");
         ("zIndex", PNum 9); ("fillWidth", PBool true);
         ("padding", PStr "8"); ("horizontal", PStr "center")]
        [ Elem "Flex"
            [("fillWidth", PBool true); ("horizontal", PStr "start");
             ("marginLeft", PStr "12")]
            [ Elem "Flex"
                [("background", PStr "surface");
                 ("border", PStr "neutral-medium"); ("radius", PStr "m-4");
                 ("shadow", PStr "l"); ("padding", PStr "4");
                 ("horizontal", PStr "center")]
                [ Elem "Flex"
                    [("gap", PStr "4"); ("vertical", PStr "center");
                     ("textVariant", PStr "body-default-s")]
                    [ jsx_and (route_enabled "/")
                        (ToggleButton None "home" "/" None
                           (strict_eq pathname "/"));
                      Elem "Line"
                        [("vert", PBool true); ("maxHeight", PStr "24")] [];
                      jsx_and (route_enabled "/about")
                        (Elem "Fragment" []
                           [ ToggleButton (Some "s-flex-hide") "person"
                               "/about" (Some about_label)
                               (strict_eq pathname "/about");
                             ToggleButton (Some "s-flex-show") "person"
                               "/about" None
                               (strict_eq pathname "/about") ]);
                      jsx_and (route_enabled "/articles")
                        (Elem "Fragment" []
                           [ ToggleButton (Some "s-flex-hide") "document"
                               "/articles" (Some (articles_label articles))
                               (startsWith pathname "/articles");
                             ToggleButton (Some "s-flex-show") "document"
                               "/articles" None
                               (startsWith pathname "/articles") ]) ] ] ] ] ].

End HeaderNav.

(** The navigation entries of a rendered header: each toggle button's
    target and whether it is shown selected. *)
Definition nav_entries (n : node) : list (string * bool) :=
  omap (fun b =>
          match get_prop "href" b, get_prop "selected" b with
          | Some (PStr h), Some (PBool sel) => Some (h, sel)
          | _, _ => None
          end)
       (elements_of "ToggleButton" n).

(** ** The clock, [TimeDisplay] *)

(** The callback the clock hands to [setInterval] is the [updateTime]
    closure of a [TimeDisplay], which captures the time zone and the locale.
    [Foreign] stands for the callback of a timer that other code of the
    page registered: it leaves the clock's state and the timer table
    alone. *)
Inductive callback :=
| UpdateTime (timeZone locale : string)
| Foreign.

Record timer := mkTimer {
  timer_callback : callback;
  timer_delay : Z;          (* milliseconds *)
  timer_due : Z;            (* time of the next firing, milliseconds *)
}.

(** The browser side of one mounted clock: wall-clock time in whole
    milliseconds, the table of active intervals, the next interval id, the
    component's [currentTime] state and how often it has been set. *)
Record browser := mkBrowser {
  now : Z;
  timers : gmap nat timer;
  next_id : nat;
  currentTime : string;
  updates : nat;
}.

Section Clock.

(** [new Intl.DateTimeFormat(locale, options).format(now)] with the options
    of [updateTime]: two-digit hour, minute and second, 24-hour clock, in
    the given time zone. *)
Variable format_time : string -> string -> Z -> string.

Definition updateTime (timeZone locale : string) (b : browser) : browser :=
  let timeString := format_time locale timeZone (now b) in
  mkBrowser (now b) (timers b) (next_id b) timeString (S (updates b)).

Definition run_callback (cb : callback) (b : browser) : browser :=
  match cb with
  | UpdateTime timeZone locale => updateTime timeZone locale b
  | Foreign => b
  end.

(** [setInterval(cb, delay)]: registers a repeating timer and returns its
    id. *)
Definition setInterval (cb : callback) (delay : Z) (b : browser)
    : nat * browser :=
  let intervalId := next_id b in
  (intervalId,
   mkBrowser (now b)
     (<[intervalId := mkTimer cb delay (now b + delay)]> (timers b))
     (S intervalId) (currentTime b) (updates b)).

Definition clearInterval (intervalId : nat) (b : browser) : browser :=
  mkBrowser (now b) (delete intervalId (timers b)) (next_id b)
    (currentTime b) (updates b).

(** The body of the [useEffect] of [TimeDisplay]: update at once, start the
    one-second interval, and hand back the id its cleanup clears. *)
Definition TimeDisplay_effect (timeZone : string) (locale : option string)
    (b : browser) : nat * browser :=
  let locale := default "en-GB" locale in
  let b1 := updateTime timeZone locale b in
  setInterval (UpdateTime timeZone locale) 1000 b1.

(** The cleanup the effect returns, [() => clearInterval(intervalId)]. *)
Definition TimeDisplay_cleanup (intervalId : nat) (b : browser) : browser :=
  clearInterval intervalId b.

(** What the component renders, [<>{currentTime}</>]. *)
Definition TimeDisplay (b : browser) : node :=
  Elem "Fragment" [] [Txt (currentTime b)].

(** React runs the effect when the component mounts and its cleanup when it
    unmounts. *)
Definition mount := TimeDisplay_effect.
Definition unmount := TimeDisplay_cleanup.

(** A timer that is due runs its callback and is rescheduled one delay
    later, if it is still registered. *)
Definition fire (intervalId : nat) (t : timer) (b : browser) : browser :=
  if (timer_due t <=? now b) && bool_decide (is_Some (timers b !! intervalId))
  then
    run_callback (timer_callback t)
      (mkBrowser (now b)
         (<[intervalId :=
              mkTimer (timer_callback t) (timer_delay t)
                (timer_due t + timer_delay t)]> (timers b))
         (next_id b) (currentTime b) (updates b))
  else b.

(** One millisecond of the event loop: time advances, then every due timer
    fires. *)
Definition tick (b : browser) : browser :=
  let b' := mkBrowser (now b + 1) (timers b) (next_id b) (currentTime b)
              (updates b) in
  map_fold fire b' (timers b').

Definition advance (ms : nat) (b : browser) : browser :=
  Nat.iter ms tick b.

End Clock.

(** A timer table in which every timer belongs to other code. *)
Definition foreign_only (m : gmap nat timer) : Prop :=
  map_Forall (fun _ t => timer_callback t = Foreign) m.

(** The clock's interval is registered under [intervalId] with the given
    callback, a delay of 1000 ms and the given due time, and every other
    timer belongs to other code. *)
Definition clock_at (intervalId : nat) (cb : callback) (due : Z)
    (b : browser) : Prop :=
  timers b !! intervalId = Some (mkTimer cb 1000 due)
  /\ foreign_only (delete intervalId (timers b)).

(** ** Reference definitions for the statements *)

(** Reading of a request string as a decimal integer the way a lenient
    reader would: surrounding white space, a sign and leading zeros are
    accepted.  Used only to say which strings denote a number. *)
Definition is_space (c : ascii) : bool :=
  (c =? " ")%char || (c =? "009")%char || (c =? "010")%char
  || (c =? "013")%char.

Definition digit_value (c : ascii) : option Z :=
  let n := Z.of_N (N_of_ascii c) in
  if (48 <=? n) && (n <=? 57) then Some (n - 48) else None.

Fixpoint trim_left (s : string) : string :=
  match s with
  | String c s' => if is_space c then trim_left s' else s
  | EmptyString => EmptyString
  end.

(** Digits, then optional trailing white space only. *)
Fixpoint all_space (s : string) : bool :=
  match s with
  | String c s' => is_space c && all_space s'
  | EmptyString => true
  end.

Fixpoint read_digits (acc : Z) (s : string) : option Z :=
  match s with
  | EmptyString => Some acc
  | String c s' =>
      match digit_value c with
      | Some d => read_digits (10 * acc + d) s'
      | None => if all_space s then Some acc else None
      end
  end.

Definition read_unsigned (s : string) : option Z :=
  match s with
  | String c _ =>
      match digit_value c with
      | Some _ => read_digits 0 s
      | None => None
      end
  | EmptyString => None
  end.

Definition denoted_number (s : string) : option Z :=
  match trim_left s with
  | String c s' =>
      if (c =? "-")%char then Z.opp <$> read_unsigned s'
      else if (c =? "+")%char then read_unsigned s'
      else read_unsigned (String c s')
  | EmptyString => None
  end.

(** A plain instance of [path.join] for paths that need no normalising,
    used to run the pages on examples. *)
Definition join_plain (a b : string) : string := a +:+ "/" +:+ b.

(** ** The markdown renderer *)

Module Markdown.

(** Modelled from the spec: the markdown renderer of the detail page,
    react-markdown with the remark-gfm plugin, is a library outside the
    repository.  The specification says of it that the text is parsed "as
    markdown with table/extension support" and rendered to HTML, that
    "# Hello" yields "<h1>Hello</h1>" and that table syntax yields an HTML
    table.  [to_html] below renders that fragment of markdown: ATX headings,
    paragraphs and, when the GFM plugin is among the plugins, pipe tables.
    Inline markup, code blocks, lists, escaped pipes and column alignment
    are outside the fragment; the definitions up to [to_html] are its
    parts. *)
Definition newline : ascii := "010"%char.

Definition nl : string := String newline EmptyString.

(** Modelled from the spec: splitting a text at a separator character;
    lines are the parts between line feeds. *)
Fixpoint split_on (sep : ascii) (s : string) : list string :=
  match s with
  | EmptyString => [EmptyString]
  | String c s' =>
      if (c =? sep)%char then EmptyString :: split_on sep s'
      else
        match split_on sep s' with
        | part :: parts => String c part :: parts
        | [] => [String c EmptyString]
        end
  end.

Definition lines (text : string) : list string := split_on newline text.

(** Modelled from the spec: white space around a heading's text or a
    table cell is dropped. *)
Fixpoint trim_right (s : string) : string :=
  match s with
  | EmptyString => EmptyString
  | String c s' =>
      match trim_right s' with
      | EmptyString => if is_space c then EmptyString else String c EmptyString
      | rest => String c rest
      end
  end.

Definition trim (s : string) : string := trim_right (trim_left s).

(** Modelled from the spec: text is written to HTML with [&], [<] and [>]
    escaped. *)
Definition escape_char (c : ascii) : string :=
  if (c =? "&")%char then "&amp;"
  else if (c =? "<")%char then "&lt;"
  else if (c =? ">")%char then "&gt;"
  else String c EmptyString.

Fixpoint escape (s : string) : string :=
  match s with
  | EmptyString => EmptyString
  | String c s' => escape_char c +:+ escape s'
  end.

(** Modelled from the spec: an ATX heading is a line of one to six [#]
    followed by white space and the heading's text, or by nothing. *)
Fixpoint hashes (s : string) : nat * string :=
  match s with
  | EmptyString => (0%nat, s)
  | String c s' =>
      if (c =? "#")%char
      then let '(n, rest) := hashes s' in (S n, rest)
      else (0%nat, s)
  end.

Definition heading (line : string) : option (nat * string) :=
  let '(level, rest) := hashes line in
  if (1 <=? level)%nat && (level <=? 6)%nat
  then
    match rest with
    | EmptyString => Some (level, EmptyString)
    | String c _ => if is_space c then Some (level, trim rest) else None
    end
  else None.

(** Modelled from the spec: the cells of a table row are the parts between
    its pipes, trimmed; a leading and a trailing pipe open and close the
    row. *)
Definition strip_edges (parts : list string) : list string :=
  let parts :=
    match parts with
    | EmptyString :: rest => rest
    | _ => parts
    end in
  match List.rev parts with
  | EmptyString :: rest => List.rev rest
  | _ => parts
  end.

Definition cells (line : string) : list string :=
  strip_edges (List.map trim (split_on "|" (trim line))).

(** Modelled from the spec: the delimiter row under a table's header has
    cells of dashes, each with an optional colon at either end. *)
Fixpoint all_dashes (s : string) : bool :=
  match s with
  | EmptyString => true
  | String c s' => (c =? "-")%char && all_dashes s'
  end.

Fixpoint drop_last_colon (s : string) : string :=
  match s with
  | EmptyString => EmptyString
  | String c EmptyString => if (c =? ":")%char then EmptyString else s
  | String c s' => String c (drop_last_colon s')
  end.

Definition is_delimiter_cell (cell : string) : bool :=
  let body :=
    match cell with
    | String c rest => if (c =? ":")%char then rest else cell
    | EmptyString => cell
    end in
  let body := drop_last_colon body in
  negb (body =? EmptyString)%string && all_dashes body.

Definition is_delimiter_row (line : string) : bool :=
  match cells line with
  | [] => false
  | cs => forallb is_delimiter_cell cs
  end.

Definition has_pipe (line : string) : bool :=
  existsb (Ascii.eqb "|") (list_ascii_of_string line).

(** Modelled from the spec: a table starts at a header row with a pipe
    that is followed by a delimiter row with the same number of cells. *)
Definition table_start (header delimiter : string) : bool :=
  has_pipe header && is_delimiter_row delimiter
  && (length (cells header) =? length (cells delimiter))%nat.

Inductive block :=
| Heading (level : nat) (text : string)
| Paragraph (content : list string)
| Table (header : list string) (rows : list (list string)).

(** The block being collected while the lines are read; the lines of a
    paragraph and the rows of a table are kept latest first. *)
Inductive open_block :=
| Closed
| InParagraph (content : list string)
| InTable (header : list string) (rows : list (list string)).

Definition close (o : open_block) : list block :=
  match o with
  | Closed => []
  | InParagraph content => [Paragraph (List.rev content)]
  | InTable header rows => [Table header (List.rev rows)]
  end.

(** Modelled from the spec: the blocks of a text.  A blank line ends the
    open block, a heading line is a block of its own, and other lines
    continue the open paragraph or table, or start a table (with GFM) or a
    paragraph. *)
Fixpoint parse (gfm : bool) (o : open_block) (ls : list string)
    : list block :=
  match ls with
  | [] => close o
  | l :: rest =>
      if all_space l then close o ++ parse gfm Closed rest
      else
        match heading l with
        | Some (level, text) =>
            close o ++ Heading level text :: parse gfm Closed rest
        | None =>
            match o with
            | InTable header rows =>
                parse gfm (InTable header (cells l :: rows)) rest
            | InParagraph content =>
                parse gfm (InParagraph (l :: content)) rest
            | Closed =>
                match rest with
                | delimiter :: rest' =>
                    if gfm && table_start l delimiter
                    then parse gfm (InTable (cells l) []) rest'
                    else parse gfm (InParagraph [l]) rest
                | [] => parse gfm (InParagraph [l]) rest
                end
            end
        end
  end.

Definition element (name body : string) : string :=
  "<" +:+ name +:+ ">" +:+ body +:+ "</" +:+ name +:+ ">".

(** A row is cut or filled up to the width of the header. *)
Definition fit (width : nat) (cs : list string) : list string :=
  take width (cs ++ repeat EmptyString width).

Definition render_row (cell : string) (cs : list string) : string :=
  "<tr>" +:+ nl
  +:+ String.concat "" (List.map (fun c => element cell (escape c) +:+ nl) cs)
  +:+ "</tr>".

(** Modelled from the spec: the HTML of a block. *)
Definition render_block (b : block) : string :=
  match b with
  | Heading level text => element ("h" +:+ pretty level) (escape text)
  | Paragraph content =>
      element "p" (escape (String.concat nl (List.map trim content)))
  | Table header rows =>
      "<table>" +:+ nl +:+ "<thead>" +:+ nl
      +:+ render_row "th" header +:+ nl +:+ "</thead>" +:+ nl
      +:+ match rows with
          | [] => ""
          | _ =>
              "<tbody>" +:+ nl
              +:+ String.concat ""
                    (List.map
                       (fun r =>
                          render_row "td" (fit (length header) r) +:+ nl)
                       rows)
              +:+ "</tbody>" +:+ nl
          end
      +:+ "</table>"
  end.

Definition gfm_enabled (plugins : list remark_plugin) : bool :=
  existsb (fun p => match p with remarkGfm => true end) plugins.

(** Modelled from the spec: the HTML react-markdown produces for a text
    with the given plugins, for the fragment described above. *)
Definition to_html (plugins : list remark_plugin) (text : string) : string :=
  String.concat nl
    (List.map render_block (parse (gfm_enabled plugins) Closed (lines text))).

(** Markdown sources for the statements: plain text is made of letters,
    digits and blanks; a word is non-empty and made of letters and
    digits. *)
Definition is_alnum (c : ascii) : bool :=
  let n := N_of_ascii c in
  ((48 <=? n) && (n <=? 57) || (65 <=? n) && (n <=? 90)
   || (97 <=? n) && (n <=? 122))%N.

Fixpoint is_plain (s : string) : bool :=
  match s with
  | EmptyString => true
  | String c s' => (is_alnum c || (c =? " ")%char) && is_plain s'
  end.

Fixpoint all_alnum (s : string) : bool :=
  match s with
  | EmptyString => true
  | String c s' => is_alnum c && all_alnum s'
  end.

Definition is_word (s : string) : bool :=
  negb (s =? EmptyString)%string && all_alnum s.

(** A text without a given character, and a text that can stand in a
    table cell as it is: not empty, without pipes and white space. *)
Fixpoint lacks (sep : ascii) (s : string) : bool :=
  match s with
  | EmptyString => true
  | String c s' => negb (c =? sep)%char && lacks sep s'
  end.

Fixpoint is_clean (s : string) : bool :=
  match s with
  | EmptyString => true
  | String c s' => negb (c =? "|")%char && negb (is_space c) && is_clean s'
  end.

Definition is_cell (s : string) : bool :=
  negb (s =? EmptyString)%string && is_clean s.

(** The source of a table row, [| a | b |], and of the delimiter row for
    a number of columns, [| --- | --- |]. *)
Fixpoint row_cells (cs : list string) : string :=
  match cs with
  | [] => EmptyString
  | c :: rest => String " " (c +:+ String " " (String "|" (row_cells rest)))
  end.

Definition table_row (cs : list string) : string :=
  String "|" (row_cells cs).

Definition delimiter_row (columns : nat) : string :=
  table_row (repeat "---" columns).

End Markdown.

(** ** A concrete site for running the pages *)

Module Site.

Definition cwd : string := "/srv/site".

(** An articles directory with a body for article 0, none for articles 1
    and 2 (the repository ships none for them either), and an unreadable
    entry for an id outside the metadata. *)
Definition disk : gmap string file :=
  {[ "/srv/site/public/articles/0.md" := Readable "# Hello";
     "/srv/site/public/articles/9.md" := Unreadable ]}.

Definition w0 : world := mkWorld disk [].

Definition detail : Params -> M node :=
  ArticleDetail Content.articles cwd join_plain.

(** A metadata list that also has article 7, as in the longer variant of
    the content module. *)
Definition article7 : Article :=
  mkArticle 7 "Vue 2 to React Migration: Lessons Learned"
    "Real-world experience migrating a large-scale application from Vue 2 to React. Learn about component mapping, state management migration, routing differences, and strategies to minimize downtime during the transition."
    "February 10, 2024" "/images/articles/img-08.jpg" "/articles/7"
    ["React"; "Vue"; "Migration"; "Architecture"].

Definition longer : ArticlesContent :=
  mkArticlesContent "Articles" "Tech Articles" ""
    (Some (Content.data ++ [article7])).

(** A browser in which no interval is registered yet, and a stand-in for
    the date formatter that shows the whole seconds elapsed. *)
Definition fresh_browser : browser := mkBrowser 0 ∅ 0 "" 0.

Definition seconds_format (locale timeZone : string) (t : Z) : string :=
  pretty (t / 1000).

(** A browser in which other code already runs a timer every 250 ms. *)
Definition busy_browser : browser :=
  mkBrowser 0 {[ 7%nat := mkTimer Foreign 250 100 ]} 8 "" 0.

End Site.

(** ** Requests in sequence *)

(** Requests handled one after another, each in the world its predecessor
    left behind. *)
Fixpoint handle_all (handler : Params -> M node) (requests : list Params)
    (w : world) : list (outcome node) * world :=
  match requests with
  | [] => ([], w)
  | params :: rest =>
      let '(o, w1) := handler params w in
      let '(os, w2) := handle_all handler rest w1 in
      (o :: os, w2)
  end.

(** The [metadata] export of the list page. *)
Definition Articles_metadata (articles : ArticlesContent) : string * string :=
  (articles_title articles, articles_description articles).

(** ** Re-rendering the clock *)

(** A mounted [TimeDisplay]: the dependencies its effect last ran with,
    [[timeZone, locale]] after the default for [locale] is applied, and the
    interval its cleanup will clear. *)
Record clock_instance := mkInstance {
  deps : string * string;
  interval : nat;
}.

Section ClockLifecycle.

Variable format_time : string -> string -> Z -> string.

Definition TimeDisplay_mount (timeZone : string) (locale : option string)
    (b : browser) : clock_instance * browser :=
  let '(intervalId, b') := TimeDisplay_effect format_time timeZone locale b in
  (mkInstance (timeZone, default "en-GB" locale) intervalId, b').

(** A render with new props: React leaves the effect alone when the
    dependencies are unchanged, and otherwise runs the old cleanup and then
    the effect again. *)
Definition TimeDisplay_rerender (inst : clock_instance) (timeZone : string)
    (locale : option string) (b : browser) : clock_instance * browser :=
  let new_deps := (timeZone, default "en-GB" locale) in
  if decide (deps inst = new_deps) then (inst, b)
  else
    TimeDisplay_mount timeZone locale
      (TimeDisplay_cleanup (interval inst) b).

Definition TimeDisplay_unmount (inst : clock_instance) (b : browser)
    : browser :=
  TimeDisplay_cleanup (interval inst) b.

(** What happens to a mounted clock: new props arrive, or time passes. *)
Inductive clock_event :=
| NewProps (timeZone : string) (locale : option string)
| Elapse (ms : nat).

Definition clock_step (st : clock_instance * browser) (e : clock_event)
    : clock_instance * browser :=
  match e with
  | NewProps timeZone locale =>
      TimeDisplay_rerender (fst st) timeZone locale (snd st)
  | Elapse ms => (fst st, advance format_time ms (snd st))
  end.

Definition clock_run (events : list clock_event)
    (st : clock_instance * browser) : clock_instance * browser :=
  fold_left clock_step events st.

End ClockLifecycle.

(** The clock owns exactly one interval: the one its cleanup will clear,
    running [updateTime] for the props of the last effect, every second. *)
Definition one_interval (st : clock_instance * browser) : Prop :=
  exists due,
    timers (snd st)
    = {[ interval (fst st)
         := mkTimer (UpdateTime (fst (deps (fst st))) (snd (deps (fst st))))
              1000 due ]}.

(** ** [debounce] *)

Module Debounce.

Section WithArgs.

(** The arguments a debounced function is called with. *)
Variable Args : Type.

(** The event loop as [debounce] sees it: the time in whole milliseconds,
    the pending timeouts (when each is due and the arguments its callback
    passes to [func]), the next timer id, and the log of the calls of
    [func] with the time of each, oldest first. *)
Record loop := mkLoop {
  clock : Z;
  pending : gmap nat (Z * Args);
  next_timer : nat;
  calls : list (Z * Args);
}.

(** [setTimeout(() => func(...args), delay)]; a negative delay counts as
    zero. *)
Definition setTimeout (args : Args) (delay : Z) (l : loop) : nat * loop :=
  let timerId := next_timer l in
  (timerId,
   mkLoop (clock l)
     (<[timerId := (clock l + Z.max 0 delay, args)]> (pending l))
     (S timerId) (calls l)).

(** [clearTimeout(timeout)]; [None] is the still unassigned variable, and
    an id that is not pending clears nothing. *)
Definition clearTimeout (timeout : option nat) (l : loop) : loop :=
  match timeout with
  | Some timerId =>
      mkLoop (clock l) (delete timerId (pending l)) (next_timer l) (calls l)
  | None => l
  end.

(** [debounce(func, delay)] returns a closure over [let timeout]; the
    closure is modelled by the value of that variable, unassigned at
    first. *)
Definition debounce : option nat := None.

(** One call of the debounced function with [args]. *)
Definition debounced (delay : Z) (timeout : option nat) (args : Args)
    (l : loop) : option nat * loop :=
  let l1 := clearTimeout timeout l in
  let '(timerId, l2) := setTimeout args delay l1 in
  (Some timerId, l2).

(** A pending timeout that is due calls [func] and is gone. *)
Definition fire_timeout (timerId : nat) (entry : Z * Args) (l : loop) : loop :=
  if (fst entry <=? clock l) && bool_decide (is_Some (pending l !! timerId))
  then mkLoop (clock l) (delete timerId (pending l)) (next_timer l)
         (calls l ++ [(clock l, snd entry)])
  else l.

(** One millisecond of the event loop. *)
Definition tick (l : loop) : loop :=
  let l' := mkLoop (clock l + 1) (pending l) (next_timer l) (calls l) in
  map_fold fire_timeout l' (pending l').

Definition wait (ms : nat) (l : loop) : loop := Nat.iter ms tick l.

(** A use of the debounced function: call it with [args], then let [gap]
    milliseconds pass. *)
Definition use (delay : Z) (st : option nat * loop) (step : Args * nat)
    : option nat * loop :=
  let '(timeout, l) := debounced delay (fst st) (fst step) (snd st) in
  (timeout, wait (snd step) l).

Definition run (delay : Z) (steps : list (Args * nat))
    (st : option nat * loop) : option nat * loop :=
  fold_left (use delay) steps st.

(** Reference: the calls of [func] a trailing-edge debounce is expected to
    make, for calls of the debounced function starting at time [t]: a call
    takes effect, [delay] later, exactly when no other call follows it
    within [delay]. *)
Fixpoint expected_calls (delay : Z) (t : Z) (steps : list (Args * nat))
    : list (Z * Args) :=
  match steps with
  | [] => []
  | (args, gap) :: rest =>
      (if delay <=? Z.of_nat gap then [(t + delay, args)] else [])
      ++ expected_calls delay (t + Z.of_nat gap) rest
  end.

(** The debounced function owns at most one pending timeout, the one its
    [timeout] variable names. *)
Definition owns_pending (timeout : option nat) (l : loop) : Prop :=
  pending l = ∅
  \/ exists timerId entry,
       timeout = Some timerId /\ pending l = {[ timerId := entry ]}.

End WithArgs.

Arguments mkLoop {Args} _ _ _ _.
Arguments clock {Args} _.
Arguments pending {Args} _.
Arguments next_timer {Args} _.
Arguments calls {Args} _.
Arguments setTimeout {Args} _ _ _.
Arguments clearTimeout {Args} _ _.
Arguments debounced {Args} _ _ _ _.
Arguments fire_timeout {Args} _ _ _.
Arguments tick {Args} _.
Arguments wait {Args} _ _.
Arguments use {Args} _ _ _.
Arguments run {Args} _ _ _.
Arguments expected_calls {Args} _ _ _.
Arguments owns_pending {Args} _ _.

End Debounce.

(** ** More sample data *)

Module Demo.

(** A metadata list in which two records share id 1. *)
Definition shadowed : Article :=
  mkArticle 1 "A second article numbered 1" "" "June 1, 2025"
    "/images/articles/img9.jpg" "/articles/1" ["Duplicate"].

Definition with_duplicate : ArticlesContent :=
  mkArticlesContent "Articles" "Tech Articles" ""
    (Some (Content.data ++ [shadowed])).

Definition all_routes : gmap string bool :=
  {[ "/" := true; "/about" := true; "/articles" := true ]}.

(** The articles directory with the bodies of articles 0 and 4: the
    repository ships [4.md], and the content module has no record 4. *)
Definition shipped : world :=
  mkWorld
    {[ "/srv/site/public/articles/0.md" := Readable "# Hello";
       "/srv/site/public/articles/4.md" := Readable "# Hello" ]}
    [].

(** A body for article 1 that is a table with one row. *)
Definition table_text : string :=
  Markdown.table_row ["Name"; "Role"] +:+ Markdown.nl
  +:+ Markdown.delimiter_row 2 +:+ Markdown.nl
  +:+ Markdown.table_row ["Ada"; "Engineer"].

Definition with_table : world :=
  mkWorld {[ "/srv/site/public/articles/1.md" := Readable table_text ]} [].

(** A quiet event loop at time 0. *)
Definition quiet : Debounce.loop string := Debounce.mkLoop 0 ∅ 0 [].

End Demo.

(** * Properties *)

(** ** Lookup *)

Lemma number_toString_inj (m n : Z) :
  number_toString m = number_toString n -> m = n.
Proof. unfold number_toString. apply (inj pretty). Qed.

Lemma find_article_Some articles params article :
  find_article articles params = Some article ->
  In article (data_list articles)
  /\ number_toString (id article) = params_id params.
Proof.
  unfold find_article, strict_eq. intros H.
  apply List.find_some in H as [Hin Heq].
  split; [exact Hin | now apply String.eqb_eq].
Qed.

Lemma find_article_None articles params :
  find_article articles params = None <->
  forall article, In article (data_list articles) ->
                  number_toString (id article) <> params_id params.
Proof.
  unfold find_article, strict_eq. split.
  - intros H a Hin Heq.
    pose proof (List.find_none _ _ H a Hin) as Hf. cbn in Hf.
    apply String.eqb_neq in Hf. contradiction.
  - intros H.
    destruct (List.find _ _) as [a|] eqn:E; [|reflexivity].
    apply List.find_some in E as [Hin Heq].
    apply String.eqb_eq in Heq. now destruct (H a Hin).
Qed.

(** ** What a rendered detail page shows *)

Lemma article_view_texts article content :
  texts (article_view article content)
  = [title article; date article; content].
Proof. reflexivity. Qed.

Lemma article_view_image article content :
  exists img,
    elements_of "Image" (article_view article content) = [img]
    /\ get_prop "src" img = Some (PStr (image article))
    /\ get_prop "alt" img = Some (PStr (title article)).
Proof. eexists. repeat split. Qed.

(** Running the detail page for an id that has metadata: one read is
    logged, the files are untouched, and the page carries the file's text
    or the fallback. *)
Lemma ArticleDetail_found articles cwd path_join params article w :
  find_article articles params = Some article ->
  ArticleDetail articles cwd path_join params w
  = (Returned
       (article_view article
          match files w !! filePath cwd path_join params with
          | Some (Readable text) => text
          | _ => fallback_content
          end),
     mkWorld (files w) (reads w ++ [filePath cwd path_join params])).
Proof.
  intros Hfind. unfold ArticleDetail. rewrite Hfind.
  unfold mbind, M_bind, try_catch, readFile, mret, M_ret.
  destruct (files w !! filePath cwd path_join params) as [[text|]|];
    reflexivity.
Qed.

(** ** The markdown fragment *)

Lemma append_empty (s : string) : s +:+ "" = s.
Proof.
  induction s as [|c s IH]; [reflexivity|].
  change (String c (s +:+ "") = String c s). now rewrite IH.
Qed.

Lemma append_cons (c : ascii) (a b : string) :
  String c a +:+ b = String c (a +:+ b).
Proof. reflexivity. Qed.

Lemma alnum_not (c : ascii) (k : N) :
  Markdown.is_alnum c = true ->
  (k < 48 \/ 57 < k < 65 \/ 90 < k < 97 \/ 122 < k < 256)%N ->
  (c =? ascii_of_N k)%char = false.
Proof.
  unfold Markdown.is_alnum. intros Hc Hk. apply Ascii.eqb_neq. intros ->.
  rewrite N_ascii_embedding in Hc by lia.
  repeat (apply orb_true_iff in Hc as [Hc|Hc]);
    apply andb_true_iff in Hc as [Hlo Hhi];
    apply N.leb_le in Hlo, Hhi; lia.
Qed.

Lemma alnum_is_clean (c : ascii) :
  Markdown.is_alnum c = true ->
  (c =? "|")%char = false /\ is_space c = false
  /\ (c =? Markdown.newline)%char = false
  /\ Markdown.escape_char c = String c "".
Proof.
  intros Hc.
  assert (Hpipe := alnum_not c 124 Hc ltac:(lia)).
  assert (Hsp := alnum_not c 32 Hc ltac:(lia)).
  assert (Htab := alnum_not c 9 Hc ltac:(lia)).
  assert (Hlf := alnum_not c 10 Hc ltac:(lia)).
  assert (Hcr := alnum_not c 13 Hc ltac:(lia)).
  assert (Hamp := alnum_not c 38 Hc ltac:(lia)).
  assert (Hlt := alnum_not c 60 Hc ltac:(lia)).
  assert (Hgt := alnum_not c 62 Hc ltac:(lia)).
  cbn in Hpipe, Hsp, Htab, Hlf, Hcr, Hamp, Hlt, Hgt.
  unfold is_space, Markdown.escape_char, Markdown.newline.
  now rewrite Hpipe, Hsp, Htab, Hlf, Hcr, Hamp, Hlt, Hgt.
Qed.

Lemma plain_char (c : ascii) :
  Markdown.is_alnum c || (c =? " ")%char = true ->
  (c =? Markdown.newline)%char = false
  /\ Markdown.escape_char c = String c "".
Proof.
  intros H. apply orb_true_iff in H as [H|H].
  - now destruct (alnum_is_clean c H) as (_ & _ & ? & ?).
  - apply Ascii.eqb_eq in H. subst c. split; reflexivity.
Qed.

Lemma plain_is_one_line (s : string) :
  Markdown.is_plain s = true ->
  Markdown.split_on Markdown.newline s = [s].
Proof.
  induction s as [|c s IH]; [reflexivity|]. cbn [Markdown.is_plain].
  intros H. apply andb_true_iff in H as [Hc Hs].
  destruct (plain_char c Hc) as [Hnl _].
  cbn [Markdown.split_on]. now rewrite Hnl, (IH Hs).
Qed.

Lemma plain_escape (s : string) :
  Markdown.is_plain s = true -> Markdown.escape s = s.
Proof.
  induction s as [|c s IH]; [reflexivity|]. cbn [Markdown.is_plain].
  intros H. apply andb_true_iff in H as [Hc Hs].
  destruct (plain_char c Hc) as [_ Hesc].
  cbn [Markdown.escape]. now rewrite Hesc, (IH Hs).
Qed.

Lemma plain_trim_left (s : string) :
  Markdown.is_plain s = true -> Markdown.is_plain (trim_left s) = true.
Proof.
  induction s as [|c s IH]; [reflexivity|]. intros H. cbn [trim_left].
  destruct (is_space c); [|exact H].
  cbn [Markdown.is_plain] in H. apply andb_true_iff in H as [_ Hs]. auto.
Qed.

Lemma plain_trim_right (s : string) :
  Markdown.is_plain s = true ->
  Markdown.is_plain (Markdown.trim_right s) = true.
Proof.
  induction s as [|c s IH]; [reflexivity|]. cbn [Markdown.is_plain].
  intros H. apply andb_true_iff in H as [Hc Hs]. specialize (IH Hs).
  cbn [Markdown.trim_right].
  destruct (Markdown.trim_right s) as [|d rest].
  - destruct (is_space c); [reflexivity|]. cbn. now rewrite Hc.
  - cbn [Markdown.is_plain] in *. now rewrite Hc.
Qed.

(** A file that is one level-one heading of plain text renders as that
    heading. *)
Lemma to_html_heading (plugins : list remark_plugin) (t : string) :
  Markdown.is_plain t = true ->
  Markdown.to_html plugins ("# " +:+ t) = "<h1>" +:+ Markdown.trim t +:+ "</h1>".
Proof.
  intros Hplain. unfold Markdown.to_html, Markdown.lines.
  change ("# " +:+ t) with (String "#" (String " " t)).
  assert (Hlines : Markdown.split_on Markdown.newline (String "#" (String " " t))
                   = [String "#" (String " " t)]).
  { cbn [Markdown.split_on].
    change ("#" =? Markdown.newline)%char with false.
    change (" " =? Markdown.newline)%char with false.
    cbv iota. now rewrite (plain_is_one_line t Hplain). }
  rewrite Hlines. cbn [Markdown.parse].
  change (all_space (String "#" (String " " t))) with false. cbv iota.
  assert (Hheading : Markdown.heading (String "#" (String " " t))
                     = Some (1%nat, Markdown.trim t)) by reflexivity.
  rewrite Hheading.
  cbn [Markdown.close app List.map String.concat Markdown.render_block].
  rewrite plain_escape
    by (apply plain_trim_right, plain_trim_left, Hplain).
  reflexivity.
Qed.

Lemma lacks_split (sep : ascii) (a b : string) :
  Markdown.lacks sep a = true ->
  Markdown.split_on sep (a +:+ String sep b) = a :: Markdown.split_on sep b.
Proof.
  induction a as [|c a IH]; intros H.
  - change ("" +:+ String sep b) with (String sep b).
    cbn [Markdown.split_on]. now rewrite Ascii.eqb_refl.
  - cbn [Markdown.lacks] in H. apply andb_true_iff in H as [Hc Ha].
    apply negb_true_iff in Hc.
    change (String c a +:+ String sep b) with (String c (a +:+ String sep b)).
    cbn [Markdown.split_on]. now rewrite Hc, (IH Ha).
Qed.

Lemma lacks_one_part (sep : ascii) (a : string) :
  Markdown.lacks sep a = true -> Markdown.split_on sep a = [a].
Proof.
  induction a as [|c a IH]; intros H; [reflexivity|].
  cbn [Markdown.lacks] in H. apply andb_true_iff in H as [Hc Ha].
  apply negb_true_iff in Hc.
  cbn [Markdown.split_on]. now rewrite Hc, (IH Ha).
Qed.

Lemma trim_right_cons (c : ascii) (s : string) :
  Markdown.trim_right s = s -> s <> "" ->
  Markdown.trim_right (String c s) = String c s.
Proof.
  intros Hs Hne. cbn [Markdown.trim_right]. rewrite Hs.
  now destruct s.
Qed.

Lemma trim_right_app (s1 s2 : string) :
  Markdown.trim_right s2 = s2 -> s2 <> "" ->
  Markdown.trim_right (s1 +:+ s2) = s1 +:+ s2.
Proof.
  intros Hs Hne. induction s1 as [|c s1 IH]; [exact Hs|].
  rewrite append_cons. apply trim_right_cons; [exact IH|].
  destruct s1; [exact Hne|discriminate].
Qed.

(** A clean cell between blanks is read back as it is. *)
Lemma clean_trim_right (c : string) :
  Markdown.is_clean c = true -> Markdown.trim_right (c +:+ " ") = c.
Proof.
  induction c as [|a c IH]; [reflexivity|]. cbn [Markdown.is_clean].
  intros H. apply andb_true_iff in H as [Ha Hc].
  apply andb_true_iff in Ha as [_ Hsp]. apply negb_true_iff in Hsp.
  rewrite append_cons. cbn [Markdown.trim_right]. rewrite (IH Hc), Hsp.
  now destruct c.
Qed.

Lemma cell_trim (c : string) :
  Markdown.is_cell c = true -> Markdown.trim (String " " (c +:+ " ")) = c.
Proof.
  unfold Markdown.is_cell, Markdown.trim. intros H.
  apply andb_true_iff in H as [Hne Hclean].
  cbn [trim_left]. change (is_space " ") with true. cbv iota.
  destruct c as [|a c]; [discriminate|].
  cbn [Markdown.is_clean] in Hclean.
  pose proof Hclean as Hclean'.
  apply andb_true_iff in Hclean as [Ha _].
  apply andb_true_iff in Ha as [_ Hsp]. apply negb_true_iff in Hsp.
  rewrite append_cons. cbn [trim_left]. rewrite Hsp, <- append_cons.
  now apply clean_trim_right.
Qed.

Lemma clean_lacks_pipe (c : string) :
  Markdown.is_clean c = true -> Markdown.lacks "|" c = true.
Proof.
  induction c as [|a c IH]; [reflexivity|]. cbn.
  intros H. apply andb_true_iff in H as [Ha Hc].
  apply andb_true_iff in Ha as [Hp _]. now rewrite Hp, (IH Hc).
Qed.

Lemma clean_lacks_newline (c : string) :
  Markdown.is_clean c = true -> Markdown.lacks Markdown.newline c = true.
Proof.
  induction c as [|a c IH]; [reflexivity|]. cbn [Markdown.is_clean Markdown.lacks].
  intros H. apply andb_true_iff in H as [Ha Hc].
  apply andb_true_iff in Ha as [_ Hsp]. rewrite (IH Hc), andb_true_r.
  apply negb_true_iff in Hsp. apply negb_true_iff.
  unfold is_space in Hsp. repeat (apply orb_false_iff in Hsp as [Hsp ?]).
  assumption.
Qed.

Lemma split_row_cells (cs : list string) :
  Forall (fun c => Markdown.is_cell c = true) cs ->
  Markdown.split_on "|" (Markdown.row_cells cs)
  = List.map (fun c => String " " (c +:+ " ")) cs ++ [""].
Proof.
  induction cs as [|c cs IH]; intros Hcs; [reflexivity|].
  apply Forall_cons in Hcs as [Hc Hcs].
  apply andb_true_iff in Hc as [_ Hclean].
  cbn [Markdown.row_cells List.map app].
  change (String " " (c +:+ String " " (String "|" (Markdown.row_cells cs))))
    with (String " " (c +:+ String " " (String "|" (Markdown.row_cells cs)))).
  assert (Hassoc : c +:+ String " " (String "|" (Markdown.row_cells cs))
                   = (c +:+ " ") +:+ String "|" (Markdown.row_cells cs)).
  { clear. induction c as [|a c IH]; [reflexivity|].
    rewrite !append_cons. now rewrite IH. }
  rewrite Hassoc.
  change (String " " ((c +:+ " ") +:+ String "|" (Markdown.row_cells cs)))
    with (String " " (c +:+ " ") +:+ String "|" (Markdown.row_cells cs)).
  rewrite lacks_split, (IH Hcs); [reflexivity|].
  cbn [Markdown.lacks]. change (" " =? "|")%char with false.
  cbn [negb andb].
  clear -Hclean. induction c as [|a c IH]; [reflexivity|].
  cbn [Markdown.is_clean] in Hclean. apply andb_true_iff in Hclean as [Ha Hc].
  apply andb_true_iff in Ha as [Hp _].
  rewrite append_cons. cbn [Markdown.lacks]. now rewrite Hp, (IH Hc).
Qed.

Lemma trim_right_row (cs : list string) :
  Markdown.trim_right (String "|" (Markdown.row_cells cs))
  = String "|" (Markdown.row_cells cs).
Proof.
  induction cs as [|c cs IH]; [reflexivity|].
  cbn [Markdown.row_cells].
  apply trim_right_cons; [|discriminate].
  apply trim_right_cons.
  - apply trim_right_app; [|discriminate].
    apply trim_right_cons; [exact IH|discriminate].
  - destruct c; discriminate.
Qed.

(** The cells of a row written with [table_row] are the cells it was
    written from. *)
Lemma cells_table_row (cs : list string) :
  Forall (fun c => Markdown.is_cell c = true) cs ->
  Markdown.cells (Markdown.table_row cs) = cs.
Proof.
  intros Hcs. unfold Markdown.cells, Markdown.table_row.
  assert (Htrim : Markdown.trim (String "|" (Markdown.row_cells cs))
                  = String "|" (Markdown.row_cells cs)).
  { unfold Markdown.trim. cbn [trim_left].
    change (is_space "|") with false. cbv iota. apply trim_right_row. }
  rewrite Htrim. cbn [Markdown.split_on].
  change ("|" =? "|")%char with true. cbv iota.
  rewrite (split_row_cells cs Hcs).
  cbn [List.map]. rewrite List.map_app, List.map_map. cbn [List.map].
  change (Markdown.trim "") with "".
  assert (Hmap : List.map (fun c => Markdown.trim (String " " (c +:+ " "))) cs
                 = cs).
  { clear -Hcs. induction cs as [|c cs IH]; [reflexivity|].
    apply Forall_cons in Hcs as [Hc Hcs].
    cbn [List.map]. now rewrite (cell_trim c Hc), (IH Hcs). }
  rewrite Hmap. unfold Markdown.strip_edges.
  rewrite List.rev_app_distr. cbn [List.rev app].
  apply List.rev_involutive.
Qed.

Lemma word_is_cell (c : string) :
  Markdown.is_word c = true -> Markdown.is_cell c = true.
Proof.
  unfold Markdown.is_word, Markdown.is_cell. intros H.
  apply andb_true_iff in H as [Hne Hall]. rewrite Hne. cbn [andb].
  clear Hne. induction c as [|a c IH]; [reflexivity|].
  cbn [Markdown.all_alnum] in Hall. apply andb_true_iff in Hall as [Ha Hc].
  destruct (alnum_is_clean a Ha) as (Hp & Hsp & _).
  cbn [Markdown.is_clean]. now rewrite Hp, Hsp, (IH Hc).
Qed.

Lemma dashes_are_cells (n : nat) :
  Forall (fun c => Markdown.is_cell c = true) (repeat "---" n).
Proof. induction n; constructor; [reflexivity|assumption]. Qed.

Lemma row_is_one_line (cs : list string) :
  Forall (fun c => Markdown.is_cell c = true) cs ->
  Markdown.lacks Markdown.newline (Markdown.table_row cs) = true.
Proof.
  intros Hcs. unfold Markdown.table_row. cbn [Markdown.lacks].
  change ("|" =? Markdown.newline)%char with false. cbn [negb andb].
  induction cs as [|c cs IH]; [reflexivity|].
  apply Forall_cons in Hcs as [Hc Hcs].
  apply andb_true_iff in Hc as [_ Hclean].
  cbn [Markdown.row_cells Markdown.lacks].
  change (" " =? Markdown.newline)%char with false. cbn [negb andb].
  specialize (IH Hcs). apply clean_lacks_newline in Hclean.
  clear -Hclean IH. induction c as [|a c IHc].
  - change ("" +:+ String " " (String "|" (Markdown.row_cells cs)))
      with (String " " (String "|" (Markdown.row_cells cs))).
    cbn [Markdown.lacks].
    change (" " =? Markdown.newline)%char with false.
    change ("|" =? Markdown.newline)%char with false. exact IH.
  - cbn [Markdown.lacks] in Hclean.
    apply andb_true_iff in Hclean as [Ha Hc].
    rewrite append_cons. cbn [Markdown.lacks]. now rewrite Ha, (IHc Hc).
Qed.

(** A header row and a delimiter row for as many columns start a table. *)
Lemma table_start_rows (header : list string) :
  header <> [] ->
  Forall (fun c => Markdown.is_cell c = true) header ->
  Markdown.table_start (Markdown.table_row header)
    (Markdown.delimiter_row (length header)) = true.
Proof.
  intros Hne Hcells. unfold Markdown.table_start, Markdown.delimiter_row,
    Markdown.is_delimiter_row.
  rewrite (cells_table_row header Hcells),
    (cells_table_row _ (dashes_are_cells (length header))).
  rewrite repeat_length, Nat.eqb_refl, andb_true_r.
  change (Markdown.has_pipe (Markdown.table_row header)) with true.
  cbn [andb].
  destruct header as [|c header]; [contradiction|].
  cbn [length repeat]. cbn [forallb].
  change (Markdown.is_delimiter_cell "---") with true. cbn [andb].
  clear. induction (length header) as [|n IH]; [reflexivity|exact IH].
Qed.

(** Whatever follows, an open table is the first block that comes out. *)
Lemma parse_open_table (gfm : bool) (rest : list string) :
  forall header rows,
    exists rows' more,
      Markdown.parse gfm (Markdown.InTable header rows) rest
      = Markdown.Table header rows' :: more.
Proof.
  induction rest as [|l rest IH]; intros header rows;
    cbn [Markdown.parse Markdown.close]; [eauto|].
  destruct (all_space l); [cbn; eauto|].
  destruct (Markdown.heading l) as [[level text]|]; [cbn; eauto|].
  apply IH.
Qed.

(** A file that starts with a header row of words and its delimiter row
    renders, with GFM, as HTML that starts with a table. *)
Lemma to_html_table (plugins : list remark_plugin) (header : list string)
    (body : string) :
  Markdown.gfm_enabled plugins = true ->
  header <> [] ->
  Forall (fun c => Markdown.is_word c = true) header ->
  body = "" \/ (exists more, body = Markdown.nl +:+ more) ->
  exists rest,
    Markdown.to_html plugins
      (Markdown.table_row header +:+ Markdown.nl
       +:+ Markdown.delimiter_row (length header) +:+ body)
    = "<table>" +:+ rest.
Proof.
  intros Hgfm Hne Hwords Hbody.
  assert (Hcells : Forall (fun c => Markdown.is_cell c = true) header).
  { eapply Forall_impl; [exact Hwords|]. apply word_is_cell. }
  unfold Markdown.to_html, Markdown.lines. rewrite Hgfm.
  change (Markdown.nl +:+ Markdown.delimiter_row (length header) +:+ body)
    with (String Markdown.newline
            (Markdown.delimiter_row (length header) +:+ body)).
  rewrite lacks_split by now apply row_is_one_line.
  assert (Hsecond : exists rest,
    Markdown.split_on Markdown.newline
      (Markdown.delimiter_row (length header) +:+ body)
    = Markdown.delimiter_row (length header) :: rest).
  { destruct Hbody as [->|[more ->]].
    - rewrite append_empty. rewrite lacks_one_part; [eauto|].
      apply row_is_one_line, dashes_are_cells.
    - change (Markdown.nl +:+ more) with (String Markdown.newline more).
      rewrite lacks_split; [eauto|].
      apply row_is_one_line, dashes_are_cells. }
  destruct Hsecond as [rest ->].
  cbn [Markdown.parse].
  assert (Hrow : all_space (Markdown.table_row header) = false)
    by reflexivity.
  assert (Hnohead : Markdown.heading (Markdown.table_row header) = None)
    by reflexivity.
  rewrite Hrow, Hnohead, (table_start_rows header Hne Hcells).
  cbn [andb].
  destruct (parse_open_table true rest
              (Markdown.cells (Markdown.table_row header)) [])
    as (rows & more & ->).
  cbn [List.map].
  destruct (List.map Markdown.render_block more) as [|x xs].
  - eexists. cbn [String.concat Markdown.render_block]. reflexivity.
  - eexists. cbn [String.concat Markdown.render_block]. reflexivity.
Qed.

(** ** The detail page *)

Section DetailPage.

Variable articles : ArticlesContent.
Variable cwd : string.
Variable path_join : string -> string -> string.

(** C1: when the requested id has a metadata entry but its markdown file
    is missing or unreadable, the detail page is still returned (nothing is
    thrown), its content is the literal "File cannot be used", and the
    image, title and date are rendered from the metadata as usual. *)
Theorem missing_markdown_renders_fallback params article w :
  find_article articles params = Some article ->
  (forall text,
      files w !! filePath cwd path_join params <> Some (Readable text)) ->
  exists page img,
    fst (ArticleDetail articles cwd path_join params w) = Returned page
    /\ page = article_view article "File cannot be used"
    /\ elements_of "ReactMarkdown" page
       = [Elem "ReactMarkdown" [("remarkPlugins", PPlugins [remarkGfm])]
            [Txt "File cannot be used"]]
    /\ texts page = [title article; date article; "File cannot be used"]
    /\ elements_of "Image" page = [img]
    /\ get_prop "src" img = Some (PStr (image article))
    /\ get_prop "alt" img = Some (PStr (title article)).
Proof.
  intros Hfind Hfile.
  rewrite (ArticleDetail_found _ _ _ _ _ _ Hfind). cbn [fst].
  destruct (files w !! filePath cwd path_join params) as [[text|]|] eqn:E.
  - now destruct (Hfile text).
  - eexists _, _. repeat split.
  - eexists _, _. repeat split.
Qed.

(** C2: when no metadata entry matches the requested id, the detail page
    ends in the not-found error of [notFound()], returns no page, and the
    world is left as it was: the log of file reads does not grow. *)
Theorem unknown_id_is_not_found params w :
  find_article articles params = None ->
  ArticleDetail articles cwd path_join params w = (Threw NextNotFound, w)
  /\ reads (snd (ArticleDetail articles cwd path_join params w)) = reads w
  /\ (forall page,
        fst (ArticleDetail articles cwd path_join params w) <> Returned page).
Proof.
  intros Hfind. unfold ArticleDetail. rewrite Hfind.
  repeat split. intros page H. discriminate H.
Qed.

(** C3, as the code has it: for an id present in the metadata list the
    lookup returns a record of that list whose id renders to the requested
    string, and the detail page shows that record's title, date and image
    unchanged; the lookup is repeatable: a second request with the same id
    renders the same page, and the files are left untouched.  The tags
    stay in the record and are not part of the page, which is the same
    whatever the tags are. *)
Theorem detail_shows_title_date_image params article w :
  find_article articles params = Some article ->
  exists page content w1 w2 img,
    In article (data_list articles)
    /\ number_toString (id article) = params_id params
    /\ ArticleDetail articles cwd path_join params w = (Returned page, w1)
    /\ ArticleDetail articles cwd path_join params w1 = (Returned page, w2)
    /\ files w1 = files w
    /\ texts page = [title article; date article; content]
    /\ elements_of "Image" page = [img]
    /\ get_prop "src" img = Some (PStr (image article))
    /\ get_prop "alt" img = Some (PStr (title article))
    /\ (forall tags',
          page = article_view
                   (mkArticle (id article) (title article)
                      (description article) (date article) (image article)
                      (link article) tags')
                   content).
Proof.
  intros Hfind.
  set (content := match files w !! filePath cwd path_join params with
                  | Some (Readable text) => text
                  | _ => fallback_content
                  end).
  set (w1 := mkWorld (files w) (reads w ++ [filePath cwd path_join params])).
  exists (article_view article content), content, w1,
    (mkWorld (files w1) (reads w1 ++ [filePath cwd path_join params])).
  destruct (article_view_image article content) as (img & Himg & Hsrc & Halt).
  exists img.
  destruct (find_article_Some _ _ _ Hfind) as [Hin Hid].
  split; [exact Hin|]. split; [exact Hid|].
  split; [now rewrite (ArticleDetail_found _ _ _ _ _ _ Hfind)|].
  split; [now rewrite (ArticleDetail_found _ _ _ _ _ _ Hfind)|].
  repeat split; assumption.
Qed.

(** C4, as the code has it: when the requested id has a metadata entry
    and its markdown file is readable, the page embeds exactly one
    [ReactMarkdown] element with the GFM plugin whose text is the file's
    text, so the HTML in the page is the markdown renderer's output, with
    GFM enabled, on that text.  With the renderer read as [Markdown.to_html]:
    a file that is a level-one heading of plain text [t] yields
    [<h1>t</h1>], "# Hello" yielding "<h1>Hello</h1>", and a file that
    starts with a header row of words and its delimiter row yields HTML
    that starts with [<table>]. *)
Theorem readable_markdown_is_rendered params article w text :
  find_article articles params = Some article ->
  files w !! filePath cwd path_join params = Some (Readable text) ->
  exists page html,
    fst (ArticleDetail articles cwd path_join params w) = Returned page
    /\ elements_of "ReactMarkdown" page
       = [Elem "ReactMarkdown" [("remarkPlugins", PPlugins [remarkGfm])]
            [Txt text]]
    /\ (forall md, markdown_html md page = [md [remarkGfm] text])
    /\ markdown_html Markdown.to_html page = [html]
    /\ (forall t,
          Markdown.is_plain t = true ->
          text = "# " +:+ t ->
          html = "<h1>" +:+ Markdown.trim t +:+ "</h1>")
    /\ (forall header body,
          header <> [] ->
          Forall (fun c => Markdown.is_word c = true) header ->
          body = "" \/ (exists more, body = Markdown.nl +:+ more) ->
          text
          = Markdown.table_row header +:+ Markdown.nl
            +:+ Markdown.delimiter_row (length header) +:+ body ->
          exists rest, html = "<table>" +:+ rest).
Proof.
  intros Hfind Hfile.
  rewrite (ArticleDetail_found _ _ _ _ _ _ Hfind), Hfile. cbn [fst].
  exists (article_view article text), (Markdown.to_html [remarkGfm] text).
  split; [reflexivity|]. split; [reflexivity|].
  split; [intros md; reflexivity|]. split; [reflexivity|]. split.
  - intros t Hplain ->. now apply to_html_heading.
  - intros header body Hne Hwords Hbody ->.
    now apply to_html_table.
Qed.

(** C8: a request whose id matches a metadata entry reads exactly one
    file, at [path.join(path.join(cwd, "public/articles"), id + ".md")],
    whether the read succeeds or not (no retry); a second request with the
    same id reads the same path again (nothing is cached). *)
Theorem matched_request_reads_one_file params article w :
  find_article articles params = Some article ->
  let path :=
    path_join (path_join cwd "public/articles") (params_id params +:+ ".md") in
  let w1 := snd (ArticleDetail articles cwd path_join params w) in
  let w2 := snd (ArticleDetail articles cwd path_join params w1) in
  reads w1 = reads w ++ [path]
  /\ files w1 = files w
  /\ reads w2 = reads w ++ [path; path].
Proof.
  intros Hfind path w1 w2. subst w1 w2.
  rewrite !(ArticleDetail_found _ _ _ _ _ _ Hfind). cbn [snd reads files].
  repeat split. now rewrite <- app_assoc.
Qed.

End DetailPage.

(** ** The detail page on the concrete site *)

Lemma missing_markdown_renders_fallback_witness :
  exists page img,
    fst (Site.detail (mkParams "1") Site.w0) = Returned page
    /\ page = article_view Content.article1 "File cannot be used"
    /\ elements_of "ReactMarkdown" page
       = [Elem "ReactMarkdown" [("remarkPlugins", PPlugins [remarkGfm])]
            [Txt "File cannot be used"]]
    /\ texts page
       = [title Content.article1; date Content.article1; "File cannot be used"]
    /\ elements_of "Image" page = [img]
    /\ get_prop "src" img = Some (PStr (image Content.article1))
    /\ get_prop "alt" img = Some (PStr (title Content.article1)).
Proof.
  apply (missing_markdown_renders_fallback Content.articles Site.cwd
           join_plain (mkParams "1") Content.article1 Site.w0).
  - reflexivity.
  - intros text. vm_compute. discriminate.
Defined.

Lemma unknown_id_is_not_found_witness :
  Site.detail (mkParams "999") Site.w0 = (Threw NextNotFound, Site.w0)
  /\ reads (snd (Site.detail (mkParams "999") Site.w0)) = reads Site.w0
  /\ (forall page,
        fst (Site.detail (mkParams "999") Site.w0) <> Returned page).
Proof.
  apply (unknown_id_is_not_found Content.articles Site.cwd join_plain
           (mkParams "999") Site.w0).
  reflexivity.
Defined.

Lemma detail_shows_title_date_image_witness :
  exists page content w1 w2 img,
    In Content.article0 (data_list Content.articles)
    /\ number_toString (id Content.article0) = "0"
    /\ Site.detail (mkParams "0") Site.w0 = (Returned page, w1)
    /\ Site.detail (mkParams "0") w1 = (Returned page, w2)
    /\ files w1 = files Site.w0
    /\ texts page = [title Content.article0; date Content.article0; content]
    /\ elements_of "Image" page = [img]
    /\ get_prop "src" img = Some (PStr (image Content.article0))
    /\ get_prop "alt" img = Some (PStr (title Content.article0))
    /\ (forall tags',
          page = article_view
                   (mkArticle (id Content.article0) (title Content.article0)
                      (description Content.article0) (date Content.article0)
                      (image Content.article0) (link Content.article0) tags')
                   content).
Proof.
  apply (detail_shows_title_date_image Content.articles Site.cwd join_plain
           (mkParams "0") Content.article0 Site.w0).
  reflexivity.
Defined.

(** C3 as stated fails on the tags: article 0 carries the tag
    "Performance", and no string of the rendered detail page is that tag. *)
Lemma detail_page_omits_tags :
  exists article page,
    find_article Content.articles (mkParams "0") = Some article
    /\ fst (Site.detail (mkParams "0") Site.w0) = Returned page
    /\ In "Performance" (tags article)
    /\ ~ In "Performance" (strings_of page).
Proof.
  exists Content.article0. eexists.
  split; [reflexivity|].
  split; [vm_compute; reflexivity|].
  split; [cbn; tauto|].
  vm_compute. intuition discriminate.
Defined.

(** The page for article 0, whose file holds "# Hello", embeds
    "<h1>Hello</h1>". *)
Lemma readable_markdown_is_rendered_witness :
  exists page,
    fst (Site.detail (mkParams "0") Site.w0) = Returned page
    /\ elements_of "ReactMarkdown" page
       = [Elem "ReactMarkdown" [("remarkPlugins", PPlugins [remarkGfm])]
            [Txt "# Hello"]]
    /\ markdown_html Markdown.to_html page = ["<h1>Hello</h1>"].
Proof.
  destruct (readable_markdown_is_rendered Content.articles Site.cwd
              join_plain (mkParams "0") Content.article0 Site.w0 "# Hello")
    as (page & html & Hpage & Helement & _ & Hhtml & Hheading & _).
  - reflexivity.
  - vm_compute. reflexivity.
  - exists page. split; [exact Hpage|]. split; [exact Helement|].
    rewrite Hhtml, (Hheading "Hello"); reflexivity.
Defined.

(** C4 as stated fails without a metadata entry: the markdown file [4.md]
    exists and is readable, the content module has no record 4, and the
    detail page for id 4 ends in not-found and renders nothing. *)
Lemma readable_file_without_metadata_is_not_found :
  files Demo.shipped !! filePath Site.cwd join_plain (mkParams "4")
  = Some (Readable "# Hello")
  /\ find_article Content.articles (mkParams "4") = None
  /\ ArticleDetail Content.articles Site.cwd join_plain (mkParams "4")
       Demo.shipped
     = (Threw NextNotFound, Demo.shipped)
  /\ (forall page,
        fst (ArticleDetail Content.articles Site.cwd join_plain
               (mkParams "4") Demo.shipped)
        <> Returned page).
Proof.
  split; [vm_compute; reflexivity|]. split; [reflexivity|].
  split; [reflexivity|]. intros page H. discriminate H.
Defined.

(** A table in the file of article 1 comes out as an HTML table, and
    without the GFM plugin the same text would be a paragraph. *)
Example table_is_rendered_with_gfm :
  (exists page,
      fst (Site.detail (mkParams "1") Demo.with_table) = Returned page
      /\ markdown_html Markdown.to_html page
         = [Markdown.to_html [remarkGfm] Demo.table_text])
  /\ String.prefix "<table>" (Markdown.to_html [remarkGfm] Demo.table_text)
     = true
  /\ String.prefix "<p>" (Markdown.to_html [] Demo.table_text) = true.
Proof.
  split; [eexists; split; vm_compute; reflexivity|].
  split; vm_compute; reflexivity.
Qed.

(** The fragment on small texts: heading levels and trimming, escaping
    in a paragraph, a line that is no heading, and a block after a blank
    line. *)
Example markdown_fragment_examples :
  Markdown.to_html [remarkGfm] "###   Hello World  " = "<h3>Hello World</h3>"
  /\ Markdown.to_html [remarkGfm] "a<b & c" = "<p>a&lt;b &amp; c</p>"
  /\ Markdown.to_html [remarkGfm] "#Hello" = "<p>#Hello</p>"
  /\ Markdown.to_html [remarkGfm]
       ("# One" +:+ Markdown.nl +:+ Markdown.nl +:+ "two")
     = "<h1>One</h1>" +:+ Markdown.nl +:+ "<p>two</p>"
  /\ Markdown.cells "| a | b |" = ["a"; "b"]
  /\ Markdown.table_start "| a | b |" "| --- | :-: |" = true
  /\ Markdown.table_start "| a | b |" "| --- |" = false.
Proof. repeat split; vm_compute; reflexivity. Qed.

Lemma matched_request_reads_one_file_witness :
  let path := "/srv/site/public/articles/1.md" in
  let w1 := snd (Site.detail (mkParams "1") Site.w0) in
  let w2 := snd (Site.detail (mkParams "1") w1) in
  reads w1 = [path] /\ files w1 = Site.disk /\ reads w2 = [path; path].
Proof.
  apply (matched_request_reads_one_file Content.articles Site.cwd join_plain
           (mkParams "1") Content.article1 Site.w0).
  reflexivity.
Defined.

(** ** The list page *)

Section IndexedChildren.

Context {A : Type}.

Lemma flat_map_imap {B : Type} (observe : node -> list B)
    (g : nat -> A -> node) (h : A -> list B) (l : list A) :
  (forall i a, observe (g i a) = h a) ->
  flat_map observe (imap g l) = flat_map h l.
Proof.
  revert g. induction l as [|a l IH]; intros g Hg; [reflexivity|].
  cbn. rewrite Hg. f_equal. apply IH. intros i b. apply Hg.
Qed.

Lemma map_imap {B : Type} (observe : node -> B)
    (g : nat -> A -> node) (h : A -> B) (l : list A) :
  (forall i a, observe (g i a) = h a) ->
  List.map observe (imap g l) = List.map h l.
Proof.
  revert g. induction l as [|a l IH]; intros g Hg; [reflexivity|].
  cbn. rewrite Hg. f_equal. apply IH. intros i b. apply Hg.
Qed.

Lemma flat_map_imap_self (observe : node -> list node)
    (g : nat -> A -> node) (l : list A) :
  (forall i a, observe (g i a) = [g i a]) ->
  flat_map observe (imap g l) = imap g l.
Proof.
  revert g. induction l as [|a l IH]; intros g Hg; [reflexivity|].
  cbn. rewrite Hg. cbn. f_equal. apply IH. intros i b. apply Hg.
Qed.

End IndexedChildren.

Lemma flat_map_singleton {A : Type} (l : list A) :
  flat_map (fun a => [a]) l = l.
Proof. induction l as [|a l IH]; [reflexivity|]. cbn. now rewrite IH. Qed.

Lemma article_card_texts index article :
  texts (article_card index article) = card_texts article.
Proof.
  unfold card_texts. cbn.
  rewrite !app_nil_r.
  rewrite (flat_map_imap texts _ (fun tag => [tag])) by reflexivity.
  now rewrite flat_map_singleton.
Qed.

Lemma flat_map_none {A B : Type} (l : list A) :
  flat_map (fun _ => @nil B) l = [].
Proof. induction l as [|a l IH]; [reflexivity|exact IH]. Qed.

Lemma article_card_image_sources index article :
  List.map (get_prop "src") (elements_of "Image" (article_card index article))
  = [Some (PStr (image article))].
Proof.
  cbn.
  rewrite (flat_map_imap (elements_of "Image") _ (fun _ => [])) by reflexivity.
  now rewrite flat_map_none.
Qed.

Lemma article_card_is_link index article :
  elements_of "Link" (article_card index article)
  = [article_card index article].
Proof. reflexivity. Qed.

Lemma Articles_links articles :
  elements_of "Link" (Articles articles)
  = imap article_card (default [] (articles_data articles)).
Proof.
  unfold Articles. cbv zeta.
  destruct (default [] (articles_data articles)) as [|a l]; [reflexivity|].
  change (0 <? length (a :: l))%nat with true. cbv iota.
  cbn [elements_of flat_map String.eqb Ascii.eqb Bool.eqb].
  rewrite !app_nil_r.
  apply (flat_map_imap_self (elements_of "Link") article_card (a :: l)).
  intros i b. reflexivity.
Qed.

Lemma Articles_link_targets articles :
  List.map (get_prop "href") (elements_of "Link" (Articles articles))
  = List.map
      (fun article =>
         Some (PStr ("/articles/" +:+ number_toString (id article))))
      (default [] (articles_data articles)).
Proof.
  rewrite Articles_links. apply map_imap. intros i a. reflexivity.
Qed.

(** C5: the list page is a projection of the metadata list.  Its links
    are, in order, one per metadata record: each points to
    ["/articles/" + id], shows the record's cover image and its date,
    title, description and tags, and nothing else is shown; when the list
    is empty (or absent) there is no link and the page shows the
    empty-state message instead. *)
Theorem list_page_projects_metadata articles :
  let data := default [] (articles_data articles) in
  let page := Articles articles in
  List.map
    (fun entry =>
       (get_prop "href" entry,
        List.map (get_prop "src") (elements_of "Image" entry),
        texts entry))
    (elements_of "Link" page)
  = List.map
      (fun article =>
         (Some (PStr ("/articles/" +:+ number_toString (id article))),
          [Some (PStr (image article))],
          [date article; title article; description article]
            ++ tags article))
      data
  /\ length (elements_of "Link" page) = length data
  /\ texts page
     = match data with
       | [] => ["Coming Soon";
                "No articles available at the moment. Check back later for tech articles and tutorials."]
       | _ :: _ =>
           flat_map
             (fun article =>
                [date article; title article; description article]
                  ++ tags article)
             data
       end.
Proof.
  intros data page. subst page.
  rewrite Articles_links. fold data. split; [|split].
  - apply map_imap. intros i b.
    rewrite article_card_texts, article_card_image_sources. reflexivity.
  - apply length_imap.
  - unfold Articles. fold data. clearbody data.
    destruct data as [|a l]; [reflexivity|].
    change (0 <? length (a :: l))%nat with true. cbv iota.
    cbn [texts flat_map]. rewrite !app_nil_r.
    now rewrite (flat_map_imap texts article_card card_texts)
      by apply article_card_texts.
Qed.

(** ** Header navigation *)

Lemma startsWith_spec (s p : string) :
  startsWith s p = true <-> exists rest, s = p +:+ rest.
Proof.
  unfold startsWith. revert s.
  induction p as [|c p IH]; intros s.
  - split; [intros _; exists s; reflexivity|].
    intros _. now destruct s.
  - destruct s as [|d s]; cbn.
    + split; [discriminate|]. intros [rest H]. discriminate H.
    + destruct (Ascii.ascii_dec c d) as [->|Hne].
      * rewrite IH. split; intros [rest H]; exists rest.
        -- cbn. now rewrite H.
        -- cbn in H. now injection H.
      * split; [discriminate|].
        intros [rest H]. cbn in H. injection H as H1 H2. congruence.
Qed.

(** C6: the header's entries and their highlight, for every path.  The
    entries are a home button, two "/about" buttons and two "/articles"
    buttons, each present when its route is enabled; the home and about
    entries are selected exactly when the path equals "/" and "/about", and
    the articles entries exactly when the path starts with "/articles". *)
Theorem header_highlight_matches_path
    (routes : gmap string bool) (about_label : string)
    (articles : ArticlesContent) (usePathname : option string) :
  let pathname := default "" usePathname in
  let entries := nav_entries (Header routes about_label articles usePathname) in
  entries
  = (if route_enabled routes "/"
     then [("/", String.eqb pathname "/")] else [])
    ++ (if route_enabled routes "/about"
        then [("/about", String.eqb pathname "/about");
              ("/about", String.eqb pathname "/about")]
        else [])
    ++ (if route_enabled routes "/articles"
        then [("/articles", String.prefix "/articles" pathname);
              ("/articles", String.prefix "/articles" pathname)]
        else [])
  /\ Forall
       (fun entry =>
          snd entry = true <->
          (fst entry = "/" /\ pathname = "/")
          \/ (fst entry = "/about" /\ pathname = "/about")
          \/ (fst entry = "/articles"
              /\ exists rest, pathname = "/articles" +:+ rest))
       entries.
Proof.
  intros pathname entries.
  assert (Hentries :
    entries
    = (if route_enabled routes "/"
       then [("/", String.eqb pathname "/")] else [])
      ++ (if route_enabled routes "/about"
          then [("/about", String.eqb pathname "/about");
                ("/about", String.eqb pathname "/about")]
          else [])
      ++ (if route_enabled routes "/articles"
          then [("/articles", String.prefix "/articles" pathname);
                ("/articles", String.prefix "/articles" pathname)]
          else [])).
  { subst entries. unfold Header. fold pathname.
    destruct (route_enabled routes "/"), (route_enabled routes "/about"),
      (route_enabled routes "/articles"); reflexivity. }
  split; [exact Hentries|].
  rewrite Hentries.
  assert (Hhome : forall b : bool,
            b = String.eqb pathname "/" ->
            b = true <->
            ("/" = "/" /\ pathname = "/")
            \/ ("/" = "/about" /\ pathname = "/about")
            \/ ("/" = "/articles"
                /\ exists rest, pathname = "/articles" +:+ rest)).
  { intros b ->. rewrite String.eqb_eq. split; [tauto|].
    intros [[_ H]|[[H _]|[H _]]]; [exact H|discriminate H|discriminate H]. }
  assert (Habout : forall b : bool,
            b = String.eqb pathname "/about" ->
            b = true <->
            ("/about" = "/" /\ pathname = "/")
            \/ ("/about" = "/about" /\ pathname = "/about")
            \/ ("/about" = "/articles"
                /\ exists rest, pathname = "/articles" +:+ rest)).
  { intros b ->. rewrite String.eqb_eq. split; [tauto|].
    intros [[H _]|[[_ H]|[H _]]]; [discriminate H|exact H|discriminate H]. }
  assert (Harticles : forall b : bool,
            b = String.prefix "/articles" pathname ->
            b = true <->
            ("/articles" = "/" /\ pathname = "/")
            \/ ("/articles" = "/about" /\ pathname = "/about")
            \/ ("/articles" = "/articles"
                /\ exists rest, pathname = "/articles" +:+ rest)).
  { intros b ->. rewrite <- (startsWith_spec pathname "/articles").
    unfold startsWith. split; [tauto|].
    intros [[H _]|[[H _]|[_ H]]]; [discriminate H|discriminate H|exact H]. }
  destruct (route_enabled routes "/"), (route_enabled routes "/about"),
    (route_enabled routes "/articles"); cbn [app];
    repeat (apply List.Forall_cons;
            [first [now apply Hhome | now apply Habout | now apply Harticles]|]);
    apply List.Forall_nil.
Qed.

(** ** Request strings and canonical ids *)

Lemma digit_value_pretty (m : N) :
  (m < 10)%N -> digit_value (pretty_N_char m) = Some (Z.of_N m).
Proof.
  intros H.
  assert (m = 0 \/ m = 1 \/ m = 2 \/ m = 3 \/ m = 4 \/ m = 5 \/ m = 6
          \/ m = 7 \/ m = 8 \/ m = 9)%N as Hm by lia.
  repeat (destruct Hm as [->|Hm]; [reflexivity|]). now subst m.
Qed.

Lemma digit_is_plain (c : ascii) (d : Z) :
  digit_value c = Some d ->
  is_space c = false /\ (c =? "-")%char = false /\ (c =? "+")%char = false.
Proof.
  unfold digit_value. intros H.
  destruct (48 <=? Z.of_N (N_of_ascii c)) eqn:Hlo; [|discriminate H].
  apply Z.leb_le in Hlo.
  assert (Hne : forall k : N, (k < 48)%N -> c <> ascii_of_N k).
  { intros k Hk ->. rewrite N_ascii_embedding in Hlo; lia. }
  unfold is_space.
  repeat split; repeat (apply orb_false_intro); apply Ascii.eqb_neq.
  - apply (Hne 32%N). lia.
  - apply (Hne 9%N). lia.
  - apply (Hne 10%N). lia.
  - apply (Hne 13%N). lia.
  - apply (Hne 45%N). lia.
  - apply (Hne 43%N). lia.
Qed.

(** Reading back the digits [pretty_N_go] writes in front of [s]. *)
Lemma read_digits_pretty (x : N) :
  forall (acc : Z) (s : string),
    exists k : Z,
      0 <= k
      /\ read_digits acc (pretty_N_go x s)
         = read_digits (acc * 10 ^ k + Z.of_N x) s.
Proof.
  induction (N.lt_wf_0 x) as [x _ IH]. intros acc s.
  destruct (N.eq_dec x 0%N) as [->|Hx].
  - exists 0. split; [lia|]. rewrite pretty_N_go_0. f_equal. lia.
  - rewrite pretty_N_go_step by lia.
    destruct (IH (x `div` 10)%N) with (acc := acc)
      (s := String (pretty_N_char (x `mod` 10)) s) as (k & Hk & ->).
    { apply N.div_lt; lia. }
    exists (k + 1). split; [lia|].
    cbn [read_digits].
    rewrite digit_value_pretty by (apply N.mod_lt; lia).
    f_equal. rewrite Z.pow_add_r, Z.pow_1_r by lia.
    rewrite (N.div_mod x 10) at 3 by lia.
    rewrite N2Z.inj_add, N2Z.inj_mul. change (Z.of_N 10) with 10. ring.
Qed.

(** A positive number is written starting with a digit. *)
Lemma pretty_N_go_head (x : N) :
  forall s, (0 < x)%N ->
    exists m rest, (m < 10)%N
      /\ pretty_N_go x s = String (pretty_N_char m) rest.
Proof.
  induction (N.lt_wf_0 x) as [x _ IH]. intros s Hx.
  rewrite pretty_N_go_step by exact Hx.
  destruct (N.eq_dec (x `div` 10)%N 0%N) as [E|E].
  - rewrite E, pretty_N_go_0. eexists _, _. split; [|reflexivity].
    apply N.mod_lt. lia.
  - apply IH; [apply N.div_lt; lia | now apply N.neq_0_lt_0].
Qed.

Lemma read_unsigned_pretty (x : N) :
  read_unsigned (pretty x) = Some (Z.of_N x).
Proof.
  unfold pretty, pretty_N. case_decide as Hx; [now subst x|].
  destruct (pretty_N_go_head x "") as (m & rest & Hm & E); [lia|].
  unfold read_unsigned. rewrite E, digit_value_pretty by exact Hm.
  rewrite <- E.
  destruct (read_digits_pretty x 0 "") as (k & _ & ->).
  cbn. f_equal.
Qed.

Lemma pretty_N_head (x : N) :
  exists c rest d, pretty x = String c rest /\ digit_value c = Some d.
Proof.
  unfold pretty, pretty_N. case_decide as Hx.
  - eexists _, _, _. split; reflexivity.
  - destruct (pretty_N_go_head x "") as (m & rest & Hm & E); [lia|].
    eexists _, _, _. split; [exact E|]. now apply digit_value_pretty.
Qed.

(** The canonical rendering of a number denotes that number. *)
Lemma denoted_number_toString (n : Z) :
  denoted_number (number_toString n) = Some n.
Proof.
  unfold number_toString.
  destruct n as [|p|p]; [reflexivity| |].
  - change (pretty (Z.pos p)) with (pretty (N.pos p)).
    destruct (pretty_N_head (N.pos p)) as (c & rest & d & E & Hd).
    destruct (digit_is_plain c d Hd) as (Hsp & Hminus & Hplus).
    unfold denoted_number. rewrite E. cbn [trim_left].
    rewrite Hsp, Hminus, Hplus, <- E. apply read_unsigned_pretty.
  - change (pretty (Z.neg p)) with (String "-" (pretty (N.pos p))).
    unfold denoted_number. cbn [trim_left is_space].
    change (is_space "-") with false. cbv iota.
    change ("-" =? "-")%char with true. cbv iota.
    now rewrite read_unsigned_pretty.
Qed.

(** C9: the lookup matches only the canonical decimal rendering of an id.
    A request string that denotes a number (here: read leniently, with
    surrounding white space, a sign or leading zeros) but is not that
    number's [toString] matches no article, whether or not the number is
    an id in the list: the detail page ends in not-found and reads no
    file. *)
Theorem noncanonical_id_is_not_found
    articles cwd path_join params (n : Z) w :
  denoted_number (params_id params) = Some n ->
  params_id params <> number_toString n ->
  find_article articles params = None
  /\ ArticleDetail articles cwd path_join params w = (Threw NextNotFound, w).
Proof.
  intros Hden Hne.
  assert (Hnone : find_article articles params = None).
  { apply find_article_None. intros article _ Heq.
    rewrite <- Heq, denoted_number_toString in Hden.
    injection Hden as <-. now apply Hne. }
  split; [exact Hnone|].
  unfold ArticleDetail. now rewrite Hnone.
Qed.

Lemma noncanonical_id_is_not_found_witness :
  find_article Site.longer (mkParams "07") = None
  /\ ArticleDetail Site.longer Site.cwd join_plain (mkParams "07") Site.w0
     = (Threw NextNotFound, Site.w0).
Proof.
  apply (noncanonical_id_is_not_found Site.longer Site.cwd join_plain
           (mkParams "07") 7 Site.w0).
  - reflexivity.
  - vm_compute. discriminate.
Defined.

(** The same for a trailing blank: ["1 "] denotes 1, an id of the content
    module, and is not found. *)
Example trailing_blank_is_not_found :
  In Content.article1 (data_list Content.articles)
  /\ denoted_number "1 " = Some (id Content.article1)
  /\ Site.detail (mkParams "1 ") Site.w0 = (Threw NextNotFound, Site.w0).
Proof.
  split; [cbn; tauto|]. split; [reflexivity|].
  vm_compute. reflexivity.
Qed.

(** ** From the list to the detail page *)

Lemma find_by_own_id (l : list Article) (article : Article) :
  NoDup (List.map id l) ->
  In article l ->
  List.find
    (fun a => strict_eq (number_toString (id a))
                (number_toString (id article))) l
  = Some article.
Proof.
  induction l as [|a l IH]; intros Hnd Hin; [destruct Hin|].
  cbn [List.map] in Hnd. apply NoDup_cons in Hnd as [Hfresh Hnd].
  cbn [List.find]. unfold strict_eq at 1.
  destruct Hin as [->|Hin].
  - now rewrite String.eqb_refl.
  - destruct (String.eqb_spec (number_toString (id a))
                (number_toString (id article))) as [Heq|_].
    + apply number_toString_inj in Heq. exfalso. apply Hfresh.
      rewrite Heq. apply list_elem_of_In. now apply in_map.
    + now apply IH.
Qed.

Lemma Forall2_map_self {A B : Type} (P : B -> A -> Prop) (f : A -> B)
    (l : list A) :
  (forall a, In a l -> P (f a) a) -> Forall2 P (List.map f l) l.
Proof.
  induction l as [|a l IH]; intros H; [constructor|].
  cbn [List.map]. constructor.
  - apply H. now left.
  - apply IH. intros b Hb. apply H. now right.
Qed.

(** C10: when the ids of the metadata list are pairwise distinct, every
    record is found again from the id it is linked under.  The parameters
    [generateStaticParams] produces are, record by record, the rendered
    ids; looking each one up returns that same record; the list page links
    to exactly these ids; and the detail page never ends in not-found for
    them. *)
Theorem listed_ids_resolve_to_their_article articles :
  NoDup (List.map id (data_list articles)) ->
  Forall2
    (fun params article =>
       params_id params = number_toString (id article)
       /\ find_article articles params = Some article
       /\ forall cwd path_join w,
            fst (ArticleDetail articles cwd path_join params w)
            <> Threw NextNotFound)
    (generateStaticParams articles) (data_list articles)
  /\ List.map (get_prop "href") (elements_of "Link" (Articles articles))
     = List.map
         (fun params => Some (PStr ("/articles/" +:+ params_id params)))
         (generateStaticParams articles).
Proof.
  intros Hnd. split.
  - unfold generateStaticParams. apply Forall2_map_self.
    intros article Hin. cbn [params_id].
    assert (Hfind : find_article articles
                      (mkParams (number_toString (id article)))
                    = Some article).
    { unfold find_article. cbn [params_id]. now apply find_by_own_id. }
    split; [reflexivity|]. split; [exact Hfind|].
    intros cwd path_join w.
    rewrite (ArticleDetail_found _ _ _ _ _ _ Hfind). discriminate.
  - rewrite Articles_link_targets.
    unfold generateStaticParams, data_list.
    now rewrite List.map_map.
Qed.

Lemma listed_ids_resolve_to_their_article_witness :
  Forall2
    (fun params article =>
       params_id params = number_toString (id article)
       /\ find_article Content.articles params = Some article
       /\ forall cwd path_join w,
            fst (ArticleDetail Content.articles cwd path_join params w)
            <> Threw NextNotFound)
    [mkParams "0"; mkParams "1"; mkParams "2"] Content.data
  /\ List.map (get_prop "href")
       (elements_of "Link" (Articles Content.articles))
     = [Some (PStr "/articles/0"); Some (PStr "/articles/1");
        Some (PStr "/articles/2")].
Proof.
  apply (listed_ids_resolve_to_their_article Content.articles).
  cbn.
  repeat (apply NoDup_cons_2; [rewrite list_elem_of_In; cbn; lia|]).
  apply NoDup_nil_2.
Defined.

(** ** The clock *)

Lemma seconds_elapsed_succ (n : nat) :
  (S n / 1000
   = if decide (1000 * (n / 1000 + 1) <= S n)
     then S (n / 1000) else n / 1000)%nat.
Proof.
  pose proof (Nat.div_mod_eq n 1000) as Hn.
  pose proof (Nat.mod_upper_bound n 1000 ltac:(lia)) as Hr.
  case_decide as Hdue; symmetry.
  - apply (Nat.div_unique _ _ _ 0%nat); lia.
  - apply (Nat.div_unique _ _ _ (S (n mod 1000))); lia.
Qed.

Section ClockRuns.

Variable format_time : string -> string -> Z -> string.

Lemma advance_S (ms : nat) (b : browser) :
  advance format_time (S ms) b = tick format_time (advance format_time ms b).
Proof. reflexivity. Qed.

(** Firing a timer leaves the time, the id counter and every other entry
    of the table alone. *)
Lemma fire_frame (j : nat) (t : timer) (b : browser) :
  now (fire format_time j t b) = now b
  /\ next_id (fire format_time j t b) = next_id b
  /\ (forall k, k <> j ->
        timers (fire format_time j t b) !! k = timers b !! k).
Proof.
  unfold fire.
  destruct (_ && _); [|auto].
  destruct (timer_callback t); cbn; repeat split; auto;
    intros k Hk; now rewrite lookup_insert_ne.
Qed.

(** Firing a timer of other code leaves the clock's state alone and puts
    only timers of other code into the table. *)
Lemma fire_foreign (j : nat) (t : timer) (b : browser) :
  timer_callback t = Foreign ->
  currentTime (fire format_time j t b) = currentTime b
  /\ updates (fire format_time j t b) = updates b
  /\ (forall x, timers (fire format_time j t b) !! j = Some x ->
        timers b !! j = Some x \/ timer_callback x = Foreign).
Proof.
  intros Hforeign. unfold fire. rewrite Hforeign.
  destruct (_ && _); [|auto].
  cbn. repeat split; auto.
  intros x. rewrite lookup_insert_eq. intros [= <-]. now right.
Qed.

(** Two timers fire in either order with the same result when one of them
    belongs to other code. *)
Lemma fire_comm (j1 j2 : nat) (z1 z2 : timer) (y : browser) :
  j1 <> j2 ->
  timer_callback z1 = Foreign \/ timer_callback z2 = Foreign ->
  fire format_time j1 z1 (fire format_time j2 z2 y)
  = fire format_time j2 z2 (fire format_time j1 z1 y).
Proof.
  intros Hne Hforeign.
  assert (Hne' : j2 <> j1) by (intros ->; now apply Hne).
  destruct z1 as [cb1 d1 due1], z2 as [cb2 d2 due2].
  cbn [timer_callback] in Hforeign.
  unfold fire. cbn [timer_due timer_delay timer_callback].
  destruct (due1 <=? now y) eqn:E1, (due2 <=? now y) eqn:E2,
    (bool_decide (is_Some (timers y !! j1))) eqn:B1,
    (bool_decide (is_Some (timers y !! j2))) eqn:B2;
    cbn [andb];
    destruct cb1 as [tz1 loc1|], cb2 as [tz2 loc2|];
    try (destruct Hforeign; discriminate);
    unfold run_callback, updateTime;
    repeat (progress
              (cbn [andb now timers next_id currentTime updates];
               rewrite ?E1, ?E2, ?B1, ?B2;
               rewrite ?lookup_insert_ne by assumption));
    try reflexivity;
    f_equal; now apply insert_insert_ne.
Qed.

(** Firing all of a set of timers of other code. *)
Lemma fold_foreign (m : gmap nat timer) (b0 : browser) :
  foreign_only m ->
  now (map_fold (fire format_time) b0 m) = now b0
  /\ next_id (map_fold (fire format_time) b0 m) = next_id b0
  /\ currentTime (map_fold (fire format_time) b0 m) = currentTime b0
  /\ updates (map_fold (fire format_time) b0 m) = updates b0
  /\ (forall k, m !! k = None ->
        timers (map_fold (fire format_time) b0 m) !! k = timers b0 !! k)
  /\ (forall k x,
        timers (map_fold (fire format_time) b0 m) !! k = Some x ->
        timers b0 !! k = Some x \/ timer_callback x = Foreign).
Proof.
  apply (map_fold_weak_ind
           (fun r m =>
              foreign_only m ->
              now r = now b0 /\ next_id r = next_id b0
              /\ currentTime r = currentTime b0 /\ updates r = updates b0
              /\ (forall k, m !! k = None -> timers r !! k = timers b0 !! k)
              /\ (forall k x, timers r !! k = Some x ->
                    timers b0 !! k = Some x \/ timer_callback x = Foreign))).
  - intros _. repeat split; auto.
  - intros j t m' r Hfresh IH Hall.
    apply map_Forall_insert in Hall as [Ht Hall]; [|exact Hfresh].
    destruct (IH Hall) as (Hnow & Hnext & Hshown & Hupd & Hout & Hin).
    destruct (fire_frame j t r) as (Fnow & Fnext & Fother).
    destruct (fire_foreign j t r Ht) as (Fshown & Fupd & Fself).
    split; [congruence|]. split; [congruence|].
    split; [congruence|]. split; [congruence|]. split.
    + intros k Hk. apply lookup_insert_None in Hk as [Hk Hjk].
      rewrite Fother by congruence. now apply Hout.
    + intros k x Hx. destruct (decide (k = j)) as [->|Hkj].
      * destruct (Fself x Hx) as [Hold|Hf]; [now apply Hin|now right].
      * rewrite Fother in Hx by exact Hkj. now apply Hin.
Qed.

(** While only timers of other code are registered, time passes and the
    clock's state is never touched. *)
Lemma tick_foreign (b : browser) :
  foreign_only (timers b) ->
  currentTime (tick format_time b) = currentTime b
  /\ updates (tick format_time b) = updates b
  /\ foreign_only (timers (tick format_time b)).
Proof.
  intros Hall. unfold tick.
  set (b' := mkBrowser (now b + 1) (timers b) (next_id b) (currentTime b)
               (updates b)).
  destruct (fold_foreign (timers b') b' Hall)
    as (_ & _ & Hshown & Hupd & _ & Hin).
  split; [exact Hshown|]. split; [exact Hupd|].
  intros k x Hx. destruct (Hin k x Hx) as [Hold|Hf]; [|exact Hf].
  exact (Hall k x Hold).
Qed.

Lemma advance_foreign (ms : nat) (b : browser) :
  foreign_only (timers b) ->
  currentTime (advance format_time ms b) = currentTime b
  /\ updates (advance format_time ms b) = updates b
  /\ foreign_only (timers (advance format_time ms b)).
Proof.
  intros Hall. induction ms as [|ms (Hshown & Hupd & Hall')]; [auto|].
  rewrite advance_S.
  destruct (tick_foreign _ Hall') as (Tshown & Tupd & Tall).
  split; [congruence|]. split; [congruence|exact Tall].
Qed.

(** One millisecond with the clock's interval registered: when the
    interval is due the display is set for the new time and the interval is
    put off by its delay; otherwise only time passes. *)
Lemma tick_clock (i : nat) (timeZone locale : string) (due : Z)
    (b : browser) :
  clock_at i (UpdateTime timeZone locale) due b ->
  now (tick format_time b) = now b + 1
  /\ next_id (tick format_time b) = next_id b
  /\ if decide (due <= now b + 1)
     then currentTime (tick format_time b)
          = format_time locale timeZone (now b + 1)
          /\ updates (tick format_time b) = S (updates b)
          /\ clock_at i (UpdateTime timeZone locale) (due + 1000)
               (tick format_time b)
     else currentTime (tick format_time b) = currentTime b
          /\ updates (tick format_time b) = updates b
          /\ clock_at i (UpdateTime timeZone locale) due
               (tick format_time b).
Proof.
  intros [Hmine Hothers]. unfold tick.
  set (b' := mkBrowser (now b + 1) (timers b) (next_id b) (currentTime b)
               (updates b)).
  change (timers b) with (timers b') in Hmine, Hothers.
  rewrite (map_fold_delete_L (fire format_time) b' i
             (mkTimer (UpdateTime timeZone locale) 1000 due) (timers b'));
    [|intros j1 j2 z1 z2 y Hne H1 H2|exact Hmine].
  2:{ apply fire_comm; [exact Hne|].
      destruct (decide (j1 = i)) as [->|Hj1].
      - right. apply (Hothers j2 z2). now rewrite lookup_delete_ne.
      - left. apply (Hothers j1 z1). now rewrite lookup_delete_ne. }
  destruct (fold_foreign (delete i (timers b')) b' Hothers)
    as (Hnow & Hnext & Hshown & Hupd & Hout & Hin).
  set (r := map_fold (fire format_time) b' (delete i (timers b'))) in *.
  assert (Hr : timers r !! i = Some (mkTimer (UpdateTime timeZone locale)
                                       1000 due)).
  { rewrite Hout by apply lookup_delete_eq. exact Hmine. }
  assert (Hrest : foreign_only (delete i (timers r))).
  { intros k x Hx. apply lookup_delete_Some in Hx as [Hk Hx].
    destruct (Hin k x Hx) as [Hold|Hf]; [|exact Hf].
    apply (Hothers k x). now rewrite lookup_delete_ne. }
  clearbody r. subst b'.
  cbn [now timers next_id currentTime updates] in *.
  unfold fire. cbn [timer_due timer_delay timer_callback].
  rewrite Hnow, Hr, bool_decide_eq_true_2, andb_true_r by eauto.
  destruct (Z.leb_spec due (now b + 1)) as [Hdue|Hnot].
  - rewrite decide_True by lia.
    unfold run_callback, updateTime, clock_at.
    cbn [now timers next_id currentTime updates].
    rewrite ?Hnow, ?Hnext, ?Hupd, lookup_insert_eq, delete_insert_eq.
    repeat split; assumption.
  - rewrite decide_False by lia. unfold clock_at.
    rewrite ?Hnow, ?Hnext, ?Hshown, ?Hupd.
    repeat split; assumption.
Qed.

(** A mounted clock after [ms] milliseconds: the display was set once at
    mount and once for every full second since, for the time of the latest
    full second, and the interval is due at the next one. *)
Lemma advance_clock (i : nat) (timeZone locale : string) (t0 : Z)
    (u : nat) (b1 : browser) (ms : nat) :
  now b1 = t0 ->
  currentTime b1 = format_time locale timeZone t0 ->
  updates b1 = S u ->
  clock_at i (UpdateTime timeZone locale) (t0 + 1000) b1 ->
  now (advance format_time ms b1) = t0 + Z.of_nat ms
  /\ next_id (advance format_time ms b1) = next_id b1
  /\ currentTime (advance format_time ms b1)
     = format_time locale timeZone (t0 + 1000 * Z.of_nat (ms / 1000))
  /\ updates (advance format_time ms b1) = (S u + ms / 1000)%nat
  /\ clock_at i (UpdateTime timeZone locale)
       (t0 + 1000 * (Z.of_nat (ms / 1000) + 1))
       (advance format_time ms b1).
Proof.
  intros Hnow Hshown Hupd Hclock. induction ms as [|ms IH].
  - change (advance format_time 0 b1) with b1.
    change (0 / 1000)%nat with 0%nat. change (Z.of_nat 0) with 0.
    rewrite Z.mul_0_r, !Z.add_0_r, Z.add_0_l, Z.mul_1_r, Nat.add_0_r.
    auto.
  - destruct IH as (Inow & Inext & Ishown & Iupd & Iclock).
    rewrite advance_S.
    destruct (tick_clock _ _ _ _ _ Iclock) as (Tnow & Tnext & Tstep).
    rewrite seconds_elapsed_succ.
    pose proof (Nat.div_mod_eq ms 1000) as Hms.
    pose proof (Nat.mod_upper_bound ms 1000 ltac:(lia)) as Hr.
    set (q := (ms / 1000)%nat) in *.
    rewrite Inow in Tnow, Tstep.
    split; [lia|]. split; [congruence|].
    destruct (decide (t0 + 1000 * (Z.of_nat q + 1) <= t0 + Z.of_nat ms + 1))
      as [Hdue|Hnot]; case_decide as Hsec; try lia;
      destruct Tstep as (Tshown & Tupd & Tclock).
    + assert (Hsame : t0 + Z.of_nat ms + 1 = t0 + 1000 * Z.of_nat (S q))
        by lia.
      rewrite <- Hsame. split; [exact Tshown|]. split; [lia|].
      replace (t0 + Z.of_nat ms + 1 + 1000)
        with (t0 + 1000 * (Z.of_nat q + 1) + 1000) by lia.
      replace (t0 + 1000 * (Z.of_nat (S q) + 1))
        with (t0 + 1000 * (Z.of_nat q + 1) + 1000) by lia.
      exact Tclock.
    + split; [congruence|]. split; [lia|exact Tclock].
Qed.

(** C7: on mount the clock shows the time at once and registers one
    interval of 1000 ms running [updateTime], beside whatever timers other
    code has registered; while it stays mounted the display has been set
    once at mount and once more for each full second elapsed, and the
    component renders the time of the latest full second; once unmounted
    the interval is cleared, only timers of other code are left, and
    however much time passes the display is never set again. *)
Theorem clock_updates_each_second_until_unmount
    (timeZone : string) (locale : option string) (b : browser) :
  timers b !! next_id b = None ->
  foreign_only (timers b) ->
  let shown_locale := default "en-GB" locale in
  let intervalId := fst (mount format_time timeZone locale b) in
  let mounted := snd (mount format_time timeZone locale b) in
  let shown_after (ms : nat) :=
    format_time shown_locale timeZone
      (now b + 1000 * Z.of_nat (ms / 1000)) in
  timers mounted
  = <[ intervalId :=
         mkTimer (UpdateTime timeZone shown_locale) 1000 (now b + 1000) ]>
      (timers b)
  /\ (forall ms : nat,
        let running := advance format_time ms mounted in
        updates running = (updates b + 1 + ms / 1000)%nat
        /\ currentTime running = shown_after ms
        /\ TimeDisplay running = Elem "Fragment" [] [Txt (shown_after ms)]
        /\ timers running !! intervalId
           = Some (mkTimer (UpdateTime timeZone shown_locale) 1000
                     (now b + 1000 * (Z.of_nat (ms / 1000) + 1))))
  /\ (forall ms later : nat,
        let stopped :=
          unmount intervalId (advance format_time ms mounted) in
        timers stopped !! intervalId = None
        /\ foreign_only (timers stopped)
        /\ updates (advance format_time later stopped)
           = (updates b + 1 + ms / 1000)%nat
        /\ currentTime (advance format_time later stopped) = shown_after ms
        /\ TimeDisplay (advance format_time later stopped)
           = Elem "Fragment" [] [Txt (shown_after ms)]).
Proof.
  intros Hfresh Hothers shown_locale intervalId mounted shown_after.
  assert (Hid : intervalId = next_id b) by reflexivity.
  assert (Hmounted :
    mounted
    = mkBrowser (now b)
        (<[ next_id b :=
              mkTimer (UpdateTime timeZone shown_locale) 1000
                (now b + 1000) ]> (timers b))
        (S (next_id b))
        (format_time shown_locale timeZone (now b)) (S (updates b)))
    by reflexivity.
  assert (Hclock :
    clock_at (next_id b) (UpdateTime timeZone shown_locale) (now b + 1000)
      mounted).
  { rewrite Hmounted. split; cbn [timers].
    - apply lookup_insert_eq.
    - now rewrite delete_insert_eq, delete_id. }
  assert (Hrun := fun ms =>
    advance_clock (next_id b) timeZone shown_locale (now b) (updates b)
      mounted ms ltac:(now rewrite Hmounted) ltac:(now rewrite Hmounted)
      ltac:(now rewrite Hmounted) Hclock).
  rewrite Hid. split; [now rewrite Hmounted|]. split.
  - intros ms running. subst running.
    destruct (Hrun ms) as (_ & _ & Hshown & Hupd & Hmine & _).
    unfold TimeDisplay. rewrite Hshown, Hupd.
    repeat split; [lia|exact Hmine].
  - intros ms later stopped.
    destruct (Hrun ms) as (_ & _ & Hshown & Hupd & _ & Hrest).
    assert (Hstopped : foreign_only (timers stopped)) by exact Hrest.
    destruct (advance_foreign later stopped Hstopped)
      as (Lshown & Lupd & _).
    unfold TimeDisplay. rewrite Lshown, Lupd.
    change (currentTime stopped)
      with (currentTime (advance format_time ms mounted)).
    change (updates stopped)
      with (updates (advance format_time ms mounted)).
    rewrite Hshown, Hupd.
    repeat split; [apply lookup_delete_eq|exact Hstopped|lia].
Qed.

End ClockRuns.

(** On a page where other code already runs a timer: two and a half
    seconds after mount the clock renders the time of second 2, having been
    set three times; four seconds after unmount it still holds that
    time. *)
Lemma clock_updates_each_second_until_unmount_witness :
  let started :=
    mount Site.seconds_format "America/Los_Angeles" None Site.busy_browser in
  let stopped :=
    unmount (fst started) (advance Site.seconds_format 2500 (snd started)) in
  updates (advance Site.seconds_format 2500 (snd started)) = 3%nat
  /\ TimeDisplay (advance Site.seconds_format 2500 (snd started))
     = Elem "Fragment" [] [Txt "2"]
  /\ timers stopped !! fst started = None
  /\ updates (advance Site.seconds_format 4000 stopped) = 3%nat
  /\ TimeDisplay (advance Site.seconds_format 4000 stopped)
     = Elem "Fragment" [] [Txt "2"].
Proof.
  intros started stopped.
  destruct (clock_updates_each_second_until_unmount Site.seconds_format
              "America/Los_Angeles" None Site.busy_browser)
    as (_ & Hrun & Hstop).
  - reflexivity.
  - intros k x Hx. unfold Site.busy_browser in Hx. cbn [timers] in Hx.
    apply lookup_singleton_Some in Hx as [_ <-]. reflexivity.
  - destruct (Hrun 2500%nat) as (Hupdates & _ & Hshown & _).
    destruct (Hstop 2500%nat 4000%nat) as (Hcleared & _ & Hsame & _ & Hkept).
    fold started in Hupdates, Hshown, Hcleared, Hsame, Hkept.
    fold stopped in Hcleared, Hsame, Hkept.
    split; [rewrite Hupdates; reflexivity|].
    split; [rewrite Hshown; reflexivity|].
    split; [exact Hcleared|].
    split; [rewrite Hsame; reflexivity|].
    rewrite Hkept. reflexivity.
Defined.

(** ** The header on the site's routes *)

Example header_on_article_page :
  nav_entries
    (Header {[ "/" := true; "/about" := true; "/articles" := true ]}
       Content.about_label Content.articles (Some "/articles/1"))
  = [("/", false); ("/about", false); ("/about", false);
     ("/articles", true); ("/articles", true)].
Proof. vm_compute. reflexivity. Qed.

Example header_without_about :
  nav_entries
    (Header {[ "/" := true; "/about" := false; "/articles" := true ]}
       Content.about_label Content.articles (Some "/about"))
  = [("/", false); ("/articles", false); ("/articles", false)].
Proof. vm_compute. reflexivity. Qed.

(** * Further properties *)

(** ** The detail page and its metadata *)

Lemma find_article_first articles before article after params :
  data_list articles = before ++ article :: after ->
  number_toString (id article) = params_id params ->
  Forall (fun a => id a <> id article) before ->
  find_article articles params = Some article.
Proof.
  unfold find_article. intros -> Hid. revert Hid.
  induction before as [|b before IH]; intros Hid Hbefore; cbn [app List.find].
  - unfold strict_eq. rewrite Hid. now rewrite String.eqb_refl.
  - apply Forall_cons in Hbefore as [Hb Hbefore].
    unfold strict_eq at 1.
    destruct (String.eqb_spec (number_toString (id b)) (params_id params))
      as [Heq|_]; [|now apply IH].
    rewrite <- Hid in Heq. now apply number_toString_inj in Heq.
Qed.

Section DetailPageMore.

Variable articles : ArticlesContent.
Variable cwd : string.
Variable path_join : string -> string -> string.

(** X1: [generateMetadata] and the page agree.  When it returns the empty
    object the page ends in not-found; when it returns a title and a
    description they are those of a record of the list whose id renders to
    the request, and the page is rendered and shows that title first. *)
Theorem metadata_agrees_with_page params w :
  match generateMetadata articles params with
  | None =>
      ArticleDetail articles cwd path_join params w = (Threw NextNotFound, w)
  | Some (page_title, page_description) =>
      exists article page,
        In article (data_list articles)
        /\ number_toString (id article) = params_id params
        /\ title article = page_title
        /\ description article = page_description
        /\ fst (ArticleDetail articles cwd path_join params w) = Returned page
        /\ head (texts page) = Some page_title
  end.
Proof.
  unfold generateMetadata.
  destruct (find_article articles params) as [article|] eqn:Hfind.
  - destruct (find_article_Some _ _ _ Hfind) as [Hin Hid].
    eexists article, _. rewrite (ArticleDetail_found _ _ _ _ _ _ Hfind).
    repeat split; assumption.
  - unfold ArticleDetail. now rewrite Hfind.
Qed.

(** X2: the first record wins.  When several records of the list carry the
    requested id, the lookup returns the first of them in list order, and
    the page shows its title, date and image; the later ones are never
    shown under that id. *)
Theorem first_record_with_id_wins before article after params w :
  data_list articles = before ++ article :: after ->
  number_toString (id article) = params_id params ->
  Forall (fun a => id a <> id article) before ->
  find_article articles params = Some article
  /\ exists content,
       fst (ArticleDetail articles cwd path_join params w)
       = Returned (article_view article content).
Proof.
  intros Hdata Hid Hbefore.
  assert (Hfind := find_article_first _ _ _ _ _ Hdata Hid Hbefore).
  split; [exact Hfind|].
  rewrite (ArticleDetail_found _ _ _ _ _ _ Hfind). eexists. reflexivity.
Qed.

(** X3: the outcome of a request depends on the disk only through the one
    file at the request's path: two worlds that agree on that path give the
    same page or the same error. *)
Theorem detail_depends_on_one_file params w w' :
  files w !! filePath cwd path_join params
  = files w' !! filePath cwd path_join params ->
  fst (ArticleDetail articles cwd path_join params w)
  = fst (ArticleDetail articles cwd path_join params w').
Proof.
  intros Hsame.
  destruct (find_article articles params) as [article|] eqn:Hfind.
  - rewrite !(ArticleDetail_found _ _ _ _ _ _ Hfind). cbn [fst].
    now rewrite Hsame.
  - unfold ArticleDetail. now rewrite Hfind.
Qed.

(** X4: whatever the request, the detail page leaves the files as they are
    and reads at most one file, the one at the request's path. *)
Theorem detail_never_writes params w :
  let w' := snd (ArticleDetail articles cwd path_join params w) in
  files w' = files w
  /\ (reads w' = reads w
      \/ reads w' = reads w ++ [filePath cwd path_join params]).
Proof.
  cbv zeta.
  destruct (find_article articles params) as [article|] eqn:Hfind.
  - rewrite (ArticleDetail_found _ _ _ _ _ _ Hfind). cbn. auto.
  - unfold ArticleDetail. rewrite Hfind. cbn. auto.
Qed.

(** X5: the fallback cannot be told from content.  A request whose file is
    missing or unreadable renders exactly the page it would render if the
    file held the text "File cannot be used". *)
Theorem fallback_looks_like_content params w w' :
  (forall text,
      files w !! filePath cwd path_join params <> Some (Readable text)) ->
  files w' !! filePath cwd path_join params
  = Some (Readable "File cannot be used") ->
  fst (ArticleDetail articles cwd path_join params w)
  = fst (ArticleDetail articles cwd path_join params w').
Proof.
  intros Hmissing Hliteral.
  destruct (find_article articles params) as [article|] eqn:Hfind.
  - rewrite !(ArticleDetail_found _ _ _ _ _ _ Hfind). cbn [fst].
    rewrite Hliteral.
    destruct (files w !! filePath cwd path_join params) as [[text|]|] eqn:E;
      [now destruct (Hmissing text)|reflexivity|reflexivity].
  - unfold ArticleDetail. now rewrite Hfind.
Qed.

(** X6: the parameters [generateStaticParams] lists are exactly the
    requests the detail page can render: a request is found if and only if
    it is one of them. *)
Theorem static_params_are_the_found_requests params :
  In params (generateStaticParams articles)
  <-> exists article, find_article articles params = Some article.
Proof.
  unfold generateStaticParams. rewrite in_map_iff. split.
  - intros (a & <- & Hin).
    destruct (find_article articles (mkParams (number_toString (id a))))
      as [article|] eqn:Hfind; [eauto|].
    exfalso. rewrite find_article_None in Hfind.
    now apply (Hfind a Hin).
  - intros (article & Hfind).
    destruct (find_article_Some _ _ _ Hfind) as [Hin Hid].
    exists article. split; [|exact Hin].
    destruct params as [s]. cbn in Hid. now rewrite Hid.
Qed.

(** X7: requests in sequence.  Handling a list of requests one after the
    other answers each of them, leaves the files as they are, and reads, in
    order, one file for each request that has metadata and none for the
    others. *)
Theorem handle_all_reads requests w :
  let result := handle_all (ArticleDetail articles cwd path_join) requests w in
  length (fst result) = length requests
  /\ files (snd result) = files w
  /\ reads (snd result)
     = reads w
       ++ List.map (filePath cwd path_join)
            (List.filter
               (fun params => bool_decide (is_Some (find_article articles params)))
               requests).
Proof.
  cbv zeta. revert w.
  induction requests as [|params rest IH]; intros w.
  - cbn. now rewrite app_nil_r.
  - cbn [handle_all List.filter].
    destruct (ArticleDetail articles cwd path_join params w) as [o w1] eqn:E.
    specialize (IH w1).
    destruct (handle_all (ArticleDetail articles cwd path_join) rest w1)
      as [os w2].
    cbn [fst snd length] in *. destruct IH as (Hlen & Hfiles & Hreads).
    destruct (find_article articles params) as [article|] eqn:Hfind.
    + rewrite (ArticleDetail_found _ _ _ _ _ _ Hfind) in E.
      injection E as _ <-. cbn [files reads] in *.
      rewrite bool_decide_eq_true_2 by eauto. cbn [List.map].
      rewrite Hreads, <- app_assoc. auto.
    + unfold ArticleDetail in E. rewrite Hfind in E.
      injection E as _ <-.
      rewrite bool_decide_eq_false_2 by (intros [? ?]; discriminate).
      auto.
Qed.

End DetailPageMore.

Lemma first_record_with_id_wins_witness :
  find_article Demo.with_duplicate (mkParams "1") = Some Content.article1
  /\ exists content,
       fst (ArticleDetail Demo.with_duplicate Site.cwd join_plain
              (mkParams "1") Site.w0)
       = Returned (article_view Content.article1 content).
Proof.
  apply (first_record_with_id_wins Demo.with_duplicate Site.cwd join_plain
           [Content.article0] Content.article1
           [Content.article2; Demo.shadowed] (mkParams "1") Site.w0).
  - reflexivity.
  - reflexivity.
  - repeat constructor. cbn. lia.
Defined.

Lemma detail_depends_on_one_file_witness :
  fst (Site.detail (mkParams "0") Site.w0)
  = fst (Site.detail (mkParams "0")
           (mkWorld (<[ "/srv/site/public/articles/2.md" := Readable "two" ]>
                       Site.disk)
              ["/srv/site/public/articles/2.md"])).
Proof.
  apply (detail_depends_on_one_file Content.articles Site.cwd join_plain
           (mkParams "0")).
  vm_compute. reflexivity.
Defined.

Lemma fallback_looks_like_content_witness :
  fst (Site.detail (mkParams "1") Site.w0)
  = fst (Site.detail (mkParams "1")
           (mkWorld
              {[ "/srv/site/public/articles/1.md"
                 := Readable "File cannot be used" ]} [])).
Proof.
  apply (fallback_looks_like_content Content.articles Site.cwd join_plain
           (mkParams "1")).
  - intros text. vm_compute. discriminate.
  - vm_compute. reflexivity.
Defined.

(** ** The list page: keys and the unused link field *)

Lemma map_imap_index {A B : Type} (observe : node -> B)
    (g : nat -> A -> node) (h : nat -> B) (l : list A) :
  (forall i a, observe (g i a) = h i) ->
  List.map observe (imap g l) = List.map h (seq 0 (length l)).
Proof.
  revert g h. induction l as [|a l IH]; intros g h Hg; [reflexivity|].
  cbn. rewrite Hg. f_equal.
  rewrite <- seq_shift, List.map_map.
  apply (IH (g ∘ S) (h ∘ S)). intros i b. apply Hg.
Qed.

(** X8: the React keys of the list entries are their positions 0, 1, 2,
    ..., so they are pairwise distinct whatever the ids in the metadata
    are. *)
Theorem list_entries_are_keyed_by_position articles :
  let data := default [] (articles_data articles) in
  let keys :=
    List.map (get_prop "key") (elements_of "Link" (Articles articles)) in
  keys
  = List.map (fun i => Some (PNum (Z.of_nat i))) (seq 0 (length data))
  /\ NoDup keys.
Proof.
  cbv zeta. rewrite Articles_links.
  rewrite (map_imap_index (get_prop "key") article_card
             (fun i => Some (PNum (Z.of_nat i)))) by reflexivity.
  split; [reflexivity|].
  apply NoDup_fmap_2; [|apply NoDup_seq].
  intros i j H. injection H as H. lia.
Qed.

(** X9: the [link] field of a record is not used.  Rewriting the links of
    the records in any way leaves the list page as it is: every entry
    still points to ["/articles/" + id]. *)
Theorem list_page_ignores_link_field
    (label page_title page_description : string) (data : list Article)
    (relink : Article -> string) :
  Articles
    (mkArticlesContent label page_title page_description
       (Some
          (List.map
             (fun a =>
                mkArticle (id a) (title a) (description a) (date a)
                  (image a) (relink a) (tags a))
             data)))
  = Articles
      (mkArticlesContent label page_title page_description (Some data)).
Proof.
  unfold Articles. cbn [articles_data default from_option Datatypes.id].
  rewrite length_map.
  destruct (0 <? length data)%nat; [|reflexivity].
  do 3 f_equal.
  change (List.map ?f data) with (f <$> data).
  rewrite imap_fmap. apply imap_ext. intros i a _. reflexivity.
Qed.

(** ** The header: one highlight at most *)

Lemma Header_entries (routes : gmap string bool) (about_label : string)
    (articles : ArticlesContent) (usePathname : option string) :
  nav_entries (Header routes about_label articles usePathname)
  = (if route_enabled routes "/"
     then [("/", String.eqb (default "" usePathname) "/")] else [])
    ++ (if route_enabled routes "/about"
        then [("/about", String.eqb (default "" usePathname) "/about");
              ("/about", String.eqb (default "" usePathname) "/about")]
        else [])
    ++ (if route_enabled routes "/articles"
        then [("/articles",
               String.prefix "/articles" (default "" usePathname));
              ("/articles",
               String.prefix "/articles" (default "" usePathname))]
        else []).
Proof.
  unfold Header.
  destruct (route_enabled routes "/"), (route_enabled routes "/about"),
    (route_enabled routes "/articles"); reflexivity.
Qed.

Ltac forall_entries :=
  repeat (apply List.Forall_cons; [cbn [fst snd]; try congruence|]);
  try apply List.Forall_nil.

(** X10: for every path and every routes table, the selected entries of
    the header all point to one and the same route: two different
    destinations are never highlighted together. *)
Theorem header_highlights_one_route
    (routes : gmap string bool) (about_label : string)
    (articles : ArticlesContent) (usePathname : option string) :
  exists route,
    Forall (fun entry => snd entry = true -> fst entry = route)
      (nav_entries (Header routes about_label articles usePathname)).
Proof.
  rewrite Header_entries.
  set (pathname := default "" usePathname).
  destruct (String.eqb_spec pathname "/") as [Hhome|_].
  - exists "/". rewrite Hhome. cbn [String.eqb String.prefix Ascii.eqb].
    destruct (route_enabled routes "/"), (route_enabled routes "/about"),
      (route_enabled routes "/articles"); cbn; forall_entries.
  - destruct (String.eqb_spec pathname "/about") as [Habout|_].
    + exists "/about". rewrite Habout.
      destruct (route_enabled routes "/"), (route_enabled routes "/about"),
        (route_enabled routes "/articles"); cbn; forall_entries.
    + exists "/articles".
      destruct (route_enabled routes "/"), (route_enabled routes "/about"),
        (route_enabled routes "/articles"); cbn [app]; forall_entries.
Qed.

(** X11: when [usePathname()] gives no path (it is replaced by the empty
    string), no entry of the header is selected. *)
Theorem header_without_path_highlights_nothing
    (routes : gmap string bool) (about_label : string)
    (articles : ArticlesContent) :
  Forall (fun entry => snd entry = false)
    (nav_entries (Header routes about_label articles None)).
Proof.
  rewrite Header_entries. cbn [default from_option].
  destruct (route_enabled routes "/"), (route_enabled routes "/about"),
    (route_enabled routes "/articles"); cbn; forall_entries.
Qed.

(** ** [debounce] *)

Section DebounceRuns.

Context {Args : Type}.

Implicit Types (l : Debounce.loop Args) (timeout : option nat).

Lemma wait_S (ms : nat) l :
  Debounce.wait (S ms) l = Debounce.tick (Debounce.wait ms l).
Proof. reflexivity. Qed.

Lemma tick_quiet l :
  Debounce.pending l = ∅ ->
  Debounce.tick l
  = Debounce.mkLoop (Debounce.clock l + 1) ∅ (Debounce.next_timer l)
      (Debounce.calls l).
Proof.
  intros Hnone. unfold Debounce.tick. cbn [Debounce.pending].
  now rewrite Hnone, map_fold_empty.
Qed.

Lemma tick_single (t : Z) (i : nat) (entry : Z * Args) (nx : nat)
    (cs : list (Z * Args)) :
  Debounce.tick (Debounce.mkLoop t {[ i := entry ]} nx cs)
  = if fst entry <=? t + 1
    then Debounce.mkLoop (t + 1) ∅ nx (cs ++ [(t + 1, snd entry)])
    else Debounce.mkLoop (t + 1) {[ i := entry ]} nx cs.
Proof.
  unfold Debounce.tick. cbn [Debounce.pending Debounce.clock
    Debounce.next_timer Debounce.calls].
  rewrite map_fold_singleton. unfold Debounce.fire_timeout.
  cbn [Debounce.pending Debounce.clock Debounce.next_timer Debounce.calls].
  rewrite lookup_singleton_eq, bool_decide_eq_true_2 by eauto.
  rewrite andb_true_r.
  destruct (fst entry <=? t + 1); [|reflexivity].
  now rewrite delete_singleton_eq.
Qed.

Lemma wait_quiet (ms : nat) l :
  Debounce.pending l = ∅ ->
  Debounce.wait ms l
  = Debounce.mkLoop (Debounce.clock l + Z.of_nat ms) ∅
      (Debounce.next_timer l) (Debounce.calls l).
Proof.
  intros Hnone. induction ms as [|ms IH].
  - destruct l as [t p nx cs]. cbn in *. subst p. f_equal. lia.
  - rewrite wait_S, IH, tick_quiet by reflexivity. cbn. f_equal. lia.
Qed.

(** Waiting with one timeout pending: it fires once, when it is due. *)
Lemma wait_single (ms : nat) (t due : Z) (i : nat) (args : Args) (nx : nat)
    (cs : list (Z * Args)) :
  t < due ->
  Debounce.wait ms (Debounce.mkLoop t {[ i := (due, args) ]} nx cs)
  = if decide (due <= t + Z.of_nat ms)
    then Debounce.mkLoop (t + Z.of_nat ms) ∅ nx (cs ++ [(due, args)])
    else Debounce.mkLoop (t + Z.of_nat ms) {[ i := (due, args) ]} nx cs.
Proof.
  intros Hlater. induction ms as [|ms IH].
  - rewrite decide_False by lia. cbn. f_equal. lia.
  - rewrite wait_S, IH. clear IH.
    destruct (decide (due <= t + Z.of_nat ms)) as [Hfired|Hwaiting].
    + rewrite tick_quiet by reflexivity. rewrite decide_True by lia.
      cbn. f_equal. lia.
    + rewrite tick_single. cbn [fst snd].
      destruct (Z.leb_spec due (t + Z.of_nat ms + 1)) as [Hdue|Hnot].
      * rewrite decide_True by lia.
        replace (t + Z.of_nat ms + 1) with due by lia.
        f_equal. lia.
      * rewrite decide_False by lia. f_equal. lia.
Qed.

Lemma wait_keeps_owner (ms : nat) timeout l :
  Debounce.owns_pending timeout l -> Debounce.owns_pending timeout (Debounce.wait ms l).
Proof.
  intros Hown. induction ms as [|ms IH]; [exact Hown|].
  rewrite wait_S.
  destruct IH as [Hnone|(i & entry & Htimeout & Hone)].
  - left. now rewrite tick_quiet.
  - destruct (Debounce.wait ms l) as [t p nx cs]. cbn in Hone. subst p.
    rewrite tick_single.
    destruct (fst entry <=? t + 1); [now left|right; eauto].
Qed.

(** A call of the debounced function replaces whatever it had pending by
    one new timeout. *)
Lemma debounced_replaces (delay : Z) timeout (args : Args) l :
  Debounce.owns_pending timeout l ->
  Debounce.debounced delay timeout args l
  = (Some (Debounce.next_timer l),
     Debounce.mkLoop (Debounce.clock l)
       {[ Debounce.next_timer l
          := (Debounce.clock l + Z.max 0 delay, args) ]}
       (S (Debounce.next_timer l)) (Debounce.calls l)).
Proof.
  intros Hown. unfold Debounce.debounced, Debounce.setTimeout.
  assert (Hcleared :
    Debounce.pending (Debounce.clearTimeout timeout l) = ∅
    /\ Debounce.clock (Debounce.clearTimeout timeout l) = Debounce.clock l
    /\ Debounce.next_timer (Debounce.clearTimeout timeout l)
       = Debounce.next_timer l
    /\ Debounce.calls (Debounce.clearTimeout timeout l) = Debounce.calls l).
  { destruct Hown as [Hnone|(i & entry & -> & Hone)].
    - destruct timeout as [i|]; cbn; rewrite ?Hnone, ?delete_empty; auto.
    - cbn. rewrite Hone, delete_singleton_eq. auto. }
  destruct Hcleared as (-> & -> & -> & ->).
  now rewrite insert_empty.
Qed.

Lemma use_spec (delay : Z) (st : option nat * Debounce.loop Args)
    (args : Args) (gap : nat) :
  1 <= delay ->
  Debounce.owns_pending (fst st) (snd st) ->
  let st' := Debounce.use delay st (args, gap) in
  Debounce.owns_pending (fst st') (snd st')
  /\ Debounce.clock (snd st') = Debounce.clock (snd st) + Z.of_nat gap
  /\ Debounce.calls (snd st')
     = Debounce.calls (snd st)
       ++ (if delay <=? Z.of_nat gap
           then [(Debounce.clock (snd st) + delay, args)] else []).
Proof.
  intros Hdelay Hown. cbv zeta. unfold Debounce.use. cbn [fst snd].
  rewrite (debounced_replaces _ _ _ _ Hown). cbn [fst snd].
  rewrite Z.max_r by lia. rewrite wait_single by lia.
  destruct (Z.leb_spec delay (Z.of_nat gap)) as [Hlong|Hshort].
  - rewrite decide_True by lia. cbn. split; [now left|]. auto.
  - rewrite decide_False by lia. cbn.
    split; [right; eauto|]. now rewrite app_nil_r.
Qed.

Lemma run_spec (delay : Z) (steps : list (Args * nat)) :
  1 <= delay ->
  forall st : option nat * Debounce.loop Args,
    Debounce.owns_pending (fst st) (snd st) ->
    Debounce.owns_pending (fst (Debounce.run delay steps st))
      (snd (Debounce.run delay steps st))
    /\ Debounce.calls (snd (Debounce.run delay steps st))
       = Debounce.calls (snd st)
         ++ Debounce.expected_calls delay (Debounce.clock (snd st)) steps.
Proof.
  intros Hdelay. induction steps as [|[args gap] rest IH]; intros st Hown.
  - cbn. now rewrite app_nil_r.
  - unfold Debounce.run in *. cbn [fold_left Debounce.expected_calls].
    destruct (use_spec delay st args gap Hdelay Hown)
      as (Hown' & Hclock & Hcalls).
    destruct (IH _ Hown') as (Hown'' & Hcalls'').
    split; [exact Hown''|].
    rewrite Hcalls'', Hcalls, Hclock. now rewrite <- app_assoc.
Qed.

Lemma run_keeps_owner (delay : Z) (steps : list (Args * nat)) :
  forall st : option nat * Debounce.loop Args,
    Debounce.owns_pending (fst st) (snd st) ->
    Debounce.owns_pending (fst (Debounce.run delay steps st))
      (snd (Debounce.run delay steps st)).
Proof.
  induction steps as [|[args gap] rest IH]; intros st Hown; [exact Hown|].
  unfold Debounce.run in *. cbn [fold_left]. apply IH.
  unfold Debounce.use. cbn [fst snd].
  rewrite (debounced_replaces _ _ _ _ Hown). cbn [fst snd].
  apply wait_keeps_owner. right. eauto.
Qed.

Lemma expected_calls_burst (delay : Z) (t : Z) (burst : list (Args * nat)) :
  Forall (fun step => Z.of_nat (snd step) < delay) burst ->
  Debounce.expected_calls delay t burst = [].
Proof.
  revert t. induction burst as [|[args gap] rest IH]; intros t Hshort;
    [reflexivity|].
  apply Forall_cons in Hshort as [Hgap Hrest]. cbn in *.
  destruct (Z.leb_spec delay (Z.of_nat gap)); [lia|]. now apply IH.
Qed.

Lemma expected_calls_app (delay : Z) (t : Z) (xs ys : list (Args * nat)) :
  Debounce.expected_calls delay t (xs ++ ys)
  = Debounce.expected_calls delay t xs
    ++ Debounce.expected_calls delay
         (t + Z.of_nat (list_sum (List.map snd xs))) ys.
Proof.
  revert t. induction xs as [|[args gap] xs IH]; intros t.
  - cbn. f_equal. lia.
  - cbn [app Debounce.expected_calls List.map snd].
    rewrite IH, <- app_assoc.
    replace (t + Z.of_nat gap + Z.of_nat (list_sum (List.map snd xs)))
      with (t + Z.of_nat (list_sum (gap :: List.map snd xs)))
      by (change (list_sum (gap :: List.map snd xs))
            with (gap + list_sum (List.map snd xs))%nat; lia).
    reflexivity.
Qed.

(** X12: [debounce] is a trailing-edge debounce.  For a positive delay and
    a debounced function created on a quiet event loop, the calls of [func]
    are exactly the expected ones: a call of the debounced function
    reaches [func], [delay] milliseconds later and with its own arguments,
    exactly when no other call follows it within [delay]. *)
Theorem debounce_calls_are_the_expected_ones
    (delay : Z) (steps : list (Args * nat)) l :
  1 <= delay ->
  Debounce.pending l = ∅ ->
  Debounce.calls (snd (Debounce.run delay steps (Debounce.debounce, l)))
  = Debounce.calls l
    ++ Debounce.expected_calls delay (Debounce.clock l) steps.
Proof.
  intros Hdelay Hquiet.
  apply (run_spec delay steps Hdelay (Debounce.debounce, l)). now left.
Qed.

(** X13: whatever the delay and however the debounced function is used,
    it never has more than one timeout pending. *)
Theorem debounce_keeps_one_timeout
    (delay : Z) (steps : list (Args * nat)) l :
  Debounce.pending l = ∅ ->
  (size (Debounce.pending
           (snd (Debounce.run delay steps (Debounce.debounce, l)))) <= 1)%nat.
Proof.
  intros Hquiet.
  destruct (run_keeps_owner delay steps (Debounce.debounce, l))
    as [Hnone|(i & entry & _ & Hone)]; [now left| |].
  - rewrite Hnone, map_size_empty. lia.
  - rewrite Hone, map_size_singleton. lia.
Qed.

(** X14: a burst collapses into one call.  When the debounced function is
    called repeatedly with less than [delay] between the calls and then
    left alone for at least [delay], [func] is called exactly once: with
    the arguments of the last call, [delay] after it. *)
Theorem debounce_burst_calls_once
    (delay : Z) (burst : list (Args * nat)) (args : Args) (gap : nat) l :
  1 <= delay ->
  Debounce.pending l = ∅ ->
  Forall (fun step => Z.of_nat (snd step) < delay) burst ->
  delay <= Z.of_nat gap ->
  Debounce.calls
    (snd (Debounce.run delay (burst ++ [(args, gap)]) (Debounce.debounce, l)))
  = Debounce.calls l
    ++ [(Debounce.clock l + Z.of_nat (list_sum (List.map snd burst)) + delay,
         args)].
Proof.
  intros Hdelay Hquiet Hburst Hgap.
  destruct (run_spec delay (burst ++ [(args, gap)]) Hdelay
              (Debounce.debounce, l)) as [_ ->]; [now left|].
  cbn [snd]. rewrite expected_calls_app, expected_calls_burst by exact Hburst.
  cbn. destruct (Z.leb_spec delay (Z.of_nat gap)); [reflexivity|lia].
Qed.

End DebounceRuns.

Lemma debounce_calls_are_the_expected_ones_witness :
  Debounce.calls
    (snd (Debounce.run 300 [("a", 100%nat); ("b", 400%nat); ("c", 100%nat)]
            (Debounce.debounce, Demo.quiet)))
  = [(400, "b")].
Proof.
  rewrite debounce_calls_are_the_expected_ones;
    [reflexivity | lia | reflexivity].
Defined.

Lemma debounce_keeps_one_timeout_witness :
  (size (Debounce.pending
           (snd (Debounce.run 300 [("a", 100%nat); ("b", 50%nat)]
                   (Debounce.debounce, Demo.quiet)))) <= 1)%nat.
Proof.
  apply (debounce_keeps_one_timeout 300 [("a", 100%nat); ("b", 50%nat)]
           Demo.quiet).
  reflexivity.
Defined.

Lemma debounce_burst_calls_once_witness :
  Debounce.calls
    (snd (Debounce.run 300
            ([("a", 100%nat); ("b", 200%nat)] ++ [("c", 300%nat)])
            (Debounce.debounce, Demo.quiet)))
  = [(600, "c")].
Proof.
  rewrite debounce_burst_calls_once; [reflexivity | lia | reflexivity | | lia].
  repeat constructor; cbn; lia.
Defined.

(** ** The clock across renders *)

Section ClockLifecycleRuns.

Variable format_time : string -> string -> Z -> string.

Lemma tick_one_interval (t : Z) (i : nat) (cb : callback) (delay due : Z)
    (nx : nat) (shown : string) (u : nat) :
  exists due' shown' u',
    tick format_time
      (mkBrowser t {[ i := mkTimer cb delay due ]} nx shown u)
    = mkBrowser (t + 1) {[ i := mkTimer cb delay due' ]} nx shown' u'.
Proof.
  unfold tick. cbn [now timers next_id currentTime updates].
  rewrite map_fold_singleton. unfold fire.
  cbn [now timers next_id currentTime updates timer_due timer_delay
       timer_callback].
  rewrite lookup_singleton_eq, bool_decide_eq_true_2 by eauto.
  rewrite andb_true_r.
  destruct (due <=? t + 1).
  - destruct cb as [timeZone locale|]; unfold run_callback, updateTime;
      cbn [now timers next_id currentTime updates];
      rewrite insert_singleton_eq; eauto.
  - eauto.
Qed.

Lemma advance_one_interval (ms : nat) (b : browser) (i : nat)
    (cb : callback) (delay due : Z) :
  timers b = {[ i := mkTimer cb delay due ]} ->
  exists due',
    timers (advance format_time ms b) = {[ i := mkTimer cb delay due' ]}
    /\ next_id (advance format_time ms b) = next_id b.
Proof.
  intros Hone. induction ms as [|ms IH]; [eauto|].
  rewrite advance_S. destruct IH as (due1 & Htimers & Hnext).
  destruct (advance format_time ms b) as [t tm nx shown u].
  cbn in Htimers, Hnext. subst tm.
  destruct (tick_one_interval t i cb delay due1 nx shown u)
    as (due' & shown' & u' & ->).
  cbn. eauto.
Qed.

Lemma mount_one_interval (timeZone : string) (locale : option string)
    (b : browser) :
  timers b = ∅ ->
  one_interval (TimeDisplay_mount format_time timeZone locale b).
Proof.
  intros Hnone. exists (now b + 1000).
  unfold TimeDisplay_mount, TimeDisplay_effect, setInterval, updateTime.
  cbn. now rewrite Hnone, insert_empty.
Qed.

Lemma rerender_one_interval (st : clock_instance * browser)
    (timeZone : string) (locale : option string) :
  one_interval st ->
  one_interval
    (TimeDisplay_rerender format_time (fst st) timeZone locale (snd st)).
Proof.
  intros [due Hone]. unfold TimeDisplay_rerender.
  case_decide as Hdeps; [now exists due|].
  apply mount_one_interval.
  unfold TimeDisplay_cleanup, clearInterval. cbn [timers].
  rewrite Hone. apply delete_singleton_eq.
Qed.

Lemma clock_run_one_interval (events : list clock_event) :
  forall st, one_interval st ->
             one_interval (clock_run format_time events st).
Proof.
  induction events as [|e events IH]; intros st Hone; [exact Hone|].
  unfold clock_run in *. cbn [fold_left]. apply IH.
  destruct e as [timeZone locale|ms]; cbn [clock_step].
  - now apply rerender_one_interval.
  - destruct Hone as [due Hone].
    destruct (advance_one_interval ms (snd st) _ _ _ _ Hone)
      as (due' & Htimers & _).
    exists due'. exact Htimers.
Qed.

(** X15: the clock never leaks a timer.  From a mount on a browser with
    no interval registered, through any sequence of new props and passing
    time, exactly one interval is registered: it is the one the cleanup
    will clear, it runs [updateTime] every 1000 ms with the time zone and
    locale of the latest effect, and unmounting leaves no interval. *)
Theorem clock_keeps_exactly_one_interval
    (timeZone : string) (locale : option string)
    (events : list clock_event) (b : browser) :
  timers b = ∅ ->
  let st :=
    clock_run format_time events
      (TimeDisplay_mount format_time timeZone locale b) in
  (exists due,
      timers (snd st)
      = {[ interval (fst st)
           := mkTimer (UpdateTime (fst (deps (fst st))) (snd (deps (fst st))))
                1000 due ]})
  /\ timers (TimeDisplay_unmount (fst st) (snd st)) = ∅.
Proof.
  intros Hnone st.
  assert (Hone : one_interval st).
  { apply clock_run_one_interval. now apply mount_one_interval. }
  split; [exact Hone|].
  destruct Hone as [due Hone].
  unfold TimeDisplay_unmount, TimeDisplay_cleanup, clearInterval.
  cbn [timers]. rewrite Hone. apply delete_singleton_eq.
Qed.

(** X16: new props take effect at once.  When a mounted clock is rendered
    with a time zone or locale that differs from the ones of its last
    effect, the old interval is cleared, the display is set immediately for
    the new props at the current time, and one new interval with a fresh
    id is started; a missing locale counts as "en-GB". *)
Theorem changed_props_restart_the_clock
    (inst : clock_instance) (timeZone : string) (locale : option string)
    (old : timer) (b : browser) :
  timers b = {[ interval inst := old ]} ->
  deps inst <> (timeZone, default "en-GB" locale) ->
  TimeDisplay_rerender format_time inst timeZone locale b
  = (mkInstance (timeZone, default "en-GB" locale) (next_id b),
     mkBrowser (now b)
       {[ next_id b
          := mkTimer (UpdateTime timeZone (default "en-GB" locale)) 1000
               (now b + 1000) ]}
       (S (next_id b))
       (format_time (default "en-GB" locale) timeZone (now b))
       (S (updates b))).
Proof.
  intros Hone Hdeps. unfold TimeDisplay_rerender.
  rewrite decide_False by exact Hdeps.
  unfold TimeDisplay_mount, TimeDisplay_effect, TimeDisplay_cleanup,
    clearInterval, setInterval, updateTime.
  cbn [now timers next_id currentTime updates].
  now rewrite Hone, delete_singleton_eq, insert_empty.
Qed.


(** X18: mounting and unmounting among other timers.  When the next
    interval id is not in use, mounting the clock leaves every other timer
    as it is, and unmounting it again restores the timer table exactly. *)
Theorem mount_then_unmount_restores_timers
    (timeZone : string) (locale : option string) (b : browser) :
  timers b !! next_id b = None ->
  let st := TimeDisplay_mount format_time timeZone locale b in
  (forall other, other <> interval (fst st) ->
                 timers (snd st) !! other = timers b !! other)
  /\ timers (TimeDisplay_unmount (fst st) (snd st)) = timers b.
Proof.
  intros Hfresh st. subst st.
  unfold TimeDisplay_unmount, TimeDisplay_mount, TimeDisplay_effect,
    TimeDisplay_cleanup, clearInterval, setInterval, updateTime.
  cbn [fst snd interval now timers next_id currentTime updates].
  split.
  - intros other Hother. now rewrite lookup_insert_ne.
  - rewrite delete_insert_eq. now apply delete_id.
Qed.

End ClockLifecycleRuns.

Lemma clock_keeps_exactly_one_interval_witness :
  let st :=
    clock_run Site.seconds_format
      [Elapse 1500; NewProps "UTC" None; Elapse 10;
       NewProps "UTC" (Some "en-GB")]
      (TimeDisplay_mount Site.seconds_format "America/Los_Angeles" None
         Site.fresh_browser) in
  (exists due,
      timers (snd st)
      = {[ interval (fst st)
           := mkTimer (UpdateTime (fst (deps (fst st))) (snd (deps (fst st))))
                1000 due ]})
  /\ timers (TimeDisplay_unmount (fst st) (snd st)) = ∅.
Proof.
  apply (clock_keeps_exactly_one_interval Site.seconds_format
           "America/Los_Angeles" None
           [Elapse 1500; NewProps "UTC" None; Elapse 10;
            NewProps "UTC" (Some "en-GB")]
           Site.fresh_browser).
  reflexivity.
Defined.

Lemma changed_props_restart_the_clock_witness :
  TimeDisplay_rerender Site.seconds_format
    (mkInstance ("America/Los_Angeles", "en-GB") 0) "UTC" None
    (mkBrowser 5200
       {[ 0%nat := mkTimer (UpdateTime "America/Los_Angeles" "en-GB") 1000
                     6000 ]}
       1 "5" 6)
  = (mkInstance ("UTC", "en-GB") 1,
     mkBrowser 5200 {[ 1%nat := mkTimer (UpdateTime "UTC" "en-GB") 1000 6200 ]}
       2 "5" 7).
Proof.
  rewrite (changed_props_restart_the_clock Site.seconds_format
             (mkInstance ("America/Los_Angeles", "en-GB") 0) "UTC" None
             (mkTimer (UpdateTime "America/Los_Angeles" "en-GB") 1000 6000)).
  - reflexivity.
  - reflexivity.
  - cbn. discriminate.
Defined.


Lemma mount_then_unmount_restores_timers_witness :
  let b :=
    mkBrowser 0 {[ 3%nat := mkTimer (UpdateTime "UTC" "en-GB") 1000 700 ]}
      4 "" 0 in
  let st := TimeDisplay_mount Site.seconds_format "UTC" None b in
  (forall other, other <> interval (fst st) ->
                 timers (snd st) !! other = timers b !! other)
  /\ timers (TimeDisplay_unmount (fst st) (snd st)) = timers b.
Proof.
  apply (mount_then_unmount_restores_timers Site.seconds_format "UTC" None
           (mkBrowser 0
              {[ 3%nat := mkTimer (UpdateTime "UTC" "en-GB") 1000 700 ]}
              4 "" 0)).
  vm_compute. reflexivity.
Defined.

(** ** Which files the detail page can touch *)

Section DetailPageReads.

Variable articles : ArticlesContent.
Variable cwd : string.
Variable path_join : string -> string -> string.

(** X19: the request string cannot steer the read.  Whatever string is
    requested, the only file the detail page may read is [<id>.md] in the
    articles directory for the canonical rendering of the id of a record of
    the metadata list. *)
Theorem detail_reads_only_listed_articles params w :
  let w' := snd (ArticleDetail articles cwd path_join params w) in
  reads w' = reads w
  \/ exists article,
       In article (data_list articles)
       /\ reads w'
          = reads w
            ++ [path_join (path_join cwd "public/articles")
                  (number_toString (id article) +:+ ".md")].
Proof.
  cbv zeta.
  destruct (find_article articles params) as [article|] eqn:Hfind.
  - right. exists article.
    destruct (find_article_Some _ _ _ Hfind) as [Hin Hid].
    split; [exact Hin|].
    rewrite (ArticleDetail_found _ _ _ _ _ _ Hfind). cbn [snd reads].
    unfold filePath, mdDir. now rewrite Hid.
  - left. unfold ArticleDetail. now rewrite Hfind.
Qed.

Lemma handle_all_found (requests : list Params) :
  Forall (fun params => is_Some (find_article articles params)) requests ->
  forall w,
    Forall (fun o => exists page, o = Returned page)
      (fst (handle_all (ArticleDetail articles cwd path_join) requests w))
    /\ reads (snd (handle_all (ArticleDetail articles cwd path_join)
                     requests w))
       = reads w ++ List.map (filePath cwd path_join) requests.
Proof.
  induction requests as [|params rest IH]; intros Hfound w.
  - cbn. split; [constructor|now rewrite app_nil_r].
  - apply Forall_cons in Hfound as [[article Hfind] Hrest].
    cbn [handle_all]. rewrite (ArticleDetail_found _ _ _ _ _ _ Hfind).
    specialize (IH Hrest
      (mkWorld (files w) (reads w ++ [filePath cwd path_join params]))).
    destruct (handle_all (ArticleDetail articles cwd path_join) rest _)
      as [os w2].
    cbn [fst snd reads List.map] in *. destruct IH as [Hos Hreads].
    split; [constructor; eauto|].
    rewrite Hreads, <- app_assoc. reflexivity.
Qed.

(** X20: rendering every page [generateStaticParams] lists, one after the
    other, renders a page for each record of the metadata list, none ends
    in not-found, and one file is read per record, in list order, named
    after the record's id. *)
Theorem static_generation_renders_every_article w :
  let result :=
    handle_all (ArticleDetail articles cwd path_join)
      (generateStaticParams articles) w in
  length (fst result) = length (data_list articles)
  /\ Forall (fun o => exists page, o = Returned page) (fst result)
  /\ reads (snd result)
     = reads w
       ++ List.map
            (fun article =>
               path_join (path_join cwd "public/articles")
                 (number_toString (id article) +:+ ".md"))
            (data_list articles).
Proof.
  cbv zeta.
  assert (Hfound :
    Forall (fun params => is_Some (find_article articles params))
      (generateStaticParams articles)).
  { apply List.Forall_forall. intros params Hin.
    unfold generateStaticParams in Hin. apply in_map_iff in Hin.
    destruct Hin as (a & <- & Hin).
    destruct (find_article articles (mkParams (number_toString (id a))))
      as [article|] eqn:Hfind; [eauto|].
    exfalso. rewrite find_article_None in Hfind. now apply (Hfind a Hin). }
  destruct (handle_all_found _ Hfound w) as [Hos Hreads].
  split; [|split; [exact Hos|]].
  - clear Hos Hreads Hfound. unfold generateStaticParams.
    rewrite <- (length_map (fun article =>
                  mkParams (number_toString (id article)))
                  (data_list articles)).
    generalize (List.map (fun article =>
                  mkParams (number_toString (id article)))
                  (data_list articles)) as requests.
    intros requests. revert w.
    induction requests as [|params rest IH]; intros w; [reflexivity|].
    cbn [handle_all].
    destruct (ArticleDetail articles cwd path_join params w) as [o w1].
    specialize (IH w1).
    destruct (handle_all (ArticleDetail articles cwd path_join) rest w1).
    cbn in *. now rewrite IH.
  - rewrite Hreads. unfold generateStaticParams.
    now rewrite List.map_map.
Qed.

End DetailPageReads.
